(** * Guild member pagination and bans (api/member.go)

    A shallow embedding of the member endpoints of the [api] package:
    [membersAfter] (one page), [MembersAfter] (the pagination loop),
    [Members] and [Ban], together with the properties of the
    pagination helper.

    Conventions.
    - Go's [uint] and [discord.Snowflake] are modelled by [N], Go's [int] by
      [Z].  The only arithmetic on a [uint] in the file is [limit -= fetch];
      it is written with its wrap-around ([uint_sub]).
    - The shared HTTP client is an external collaborator.  It is a parameter:
      a function on an abstract world [W] that receives the request and
      answers with the decoded body and an optional error.
    - The [for] loop of [MembersAfter] is run with fuel: one unit of fuel
      per execution of the loop body, that is per page request. *)

From Stdlib Require Import String ZArith NArith Bool List Lia.
Import ListNotations.

Set Implicit Arguments.

(** ** Go values *)

Definition uint := N.
Definition int := Z.
Definition error := string.

(** [a - b] on [uint] (64 bits): the result wraps modulo 2^64 when [b]
    exceeds [a]. *)
Definition uint_sub (a b : uint) : uint :=
  (if b <=? a then a - b else a + 2 ^ 64 - b)%N.

(** What a call can do: return a value, panic, or still be running when the
    fuel given to the loop is used up. *)
Inductive Outcome (A : Type) : Type :=
| Returned (a : A)
| Panicked
| OutOfFuel.
Arguments Panicked {A}.
Arguments OutOfFuel {A}.

(** ** package discord: the records the endpoints exchange *)

Module discord.

(** Modelled from the spec: package discord is not among the sources.  A
    snowflake is a 64-bit identifier, used as entity identifier and as
    pagination cursor; the functions of this file copy it and never
    compute with it. *)
Definition Snowflake := N.

(** Modelled from the spec: the declaration of [discord.User] is not among
    the sources.  The pagination reads its field [ID] and nothing else. *)
Record User := { ID : Snowflake; Username : string }.

(** Modelled from the spec: the declaration of [discord.Member] is not
    among the sources.  [MemberUser] is the field [User] of the Go struct,
    read by [mems[hardLimit-1].User.ID]. *)
Record Member := { MemberUser : User; Nick : string }.

End discord.

(** ** package option: optional values are pointers *)

Module option.

(** Modelled from the spec: package option is not among the sources.
    [option.Uint] is a pointer to a [uint] ([Ban] reads and writes
    [*data.DeleteDays]): an address into the store of [uint] cells, or
    [None] for [nil]. *)
Definition Uint := Datatypes.option nat.

(** Modelled from the spec: [option.String], not among the sources, is a
    pointer to a string.  [Ban] hands it on and never reads through it. *)
Definition String := Datatypes.option string.

(** The [uint] cells that pointers refer to.  A pointer that is not [nil]
    always refers to a live cell. *)
Definition Store := nat -> uint.

Definition store (h : Store) (p : nat) (v : uint) : Store :=
  fun q => if Nat.eqb q p then v else h q.

End option.

(** ** package api *)

Module api.
Import discord.

Definition hardLimit : int := 1000%Z.

(** The query of GET /guilds/{id}/members ([param] in [membersAfter]). *)
Record MembersParam := { After : Snowflake; Limit : uint }.

(** What [RequestJSON] hands back: the decoded members and the error. *)
Definition Page : Type := list Member * Datatypes.option error.

(** Loop variables of [MembersAfter] that change between iterations. *)
Record LoopState :=
  { ls_after : Snowflake; ls_limit : uint; ls_mems : list Member }.

(** How one execution of the loop body ends. *)
Inductive Step :=
| Continue (s : LoopState)
| Break (mems : list Member)
| ReturnErr (mems : list Member) (err : error)
| IndexOutOfRange.

(** [BanData], with [DeleteDays] a pointer to a [uint]. *)
Record BanData := { DeleteDays : option.Uint; Reason : option.String }.

(** The request [Ban] hands to [FastRequest]: PUT /guilds/{g}/bans/{u}
    with the schema-encoded fields of [BanData] read through the
    pointers. *)
Record BanRequest :=
  { ban_guild : Snowflake; ban_user : Snowflake;
    delete_message_days : uint; reason : option.String }.

Section Client.

Variable W : Type.

(** [c.RequestJSON(&mems, "GET", EndpointGuilds+id+"/members",
    WithSchema(c, param))] *)
Variable RequestJSON : Snowflake -> MembersParam -> W -> W * Page.

(** [c.FastRequest("PUT", EndpointGuilds+g+"/bans/"+u,
    WithSchema(c, data))] *)
Variable FastRequest : BanRequest -> W -> W * Datatypes.option error.

(** member.go:69-93.  The function returns the slice that [RequestJSON]
    decoded into, together with the error of [RequestJSON]. *)
Definition membersAfter (guildID after : Snowflake) (limit : uint)
  (w : W) : W * Page :=
  let limit :=
    if (limit =? 0)%N then 0%N
    else if (1000 <? limit)%N then 1000%N
    else limit in
  let param := {| After := after; Limit := limit |} in
  RequestJSON guildID param w.

(** member.go:44-50: the page size of this iteration and the limit that
    remains after it. *)
Definition MembersAfter_fetch (limit : uint) : uint * uint :=
  let fetch := Z.to_N hardLimit in
  if (0 <? limit)%N then
    let fetch := if (limit <? fetch)%N then limit else fetch in
    (fetch, uint_sub limit fetch)
  else (fetch, limit).

(** member.go:45-63: one execution of the loop body. *)
Definition MembersAfter_body (guildID : Snowflake) (s : LoopState)
  (w : W) : W * Step :=
  let '(fetch, limit) := MembersAfter_fetch (ls_limit s) in
  let '(w, (m, err)) := membersAfter guildID (ls_after s) fetch w in
  match err with
  | Some e => (w, ReturnErr (ls_mems s) e)
  | None =>
      let mems := ls_mems s ++ m in
      if (Z.of_nat (length mems) <? hardLimit)%Z then (w, Break mems)
      else
        match nth_error mems (Z.to_nat (hardLimit - 1)) with
        | Some x =>
            (w, Continue {| ls_after := ID (MemberUser x);
                            ls_limit := limit;
                            ls_mems := mems |})
        | None => (w, IndexOutOfRange)
        end
  end.

(** The loop condition [limit > 0 || unlimited]. *)
Definition MembersAfter_cond (unlimited : bool) (s : LoopState) : bool :=
  (0 <? ls_limit s)%N || unlimited.

(** member.go:44-66: the loop and the final [return mems, nil]. *)
Fixpoint MembersAfter_for (fuel : nat) (guildID : Snowflake)
  (unlimited : bool) (s : LoopState) (w : W) : W * Outcome Page :=
  if MembersAfter_cond unlimited s then
    match fuel with
    | O => (w, OutOfFuel)
    | S fuel' =>
        match MembersAfter_body guildID s w with
        | (w', Continue s') =>
            MembersAfter_for fuel' guildID unlimited s' w'
        | (w', Break mems) => (w', Returned (mems, None))
        | (w', ReturnErr mems e) => (w', Returned (mems, Some e))
        | (w', IndexOutOfRange) => (w', Panicked)
        end
    end
  else (w, Returned (ls_mems s, None)).

(** member.go:35-67 *)
Definition MembersAfter (fuel : nat) (guildID after : Snowflake)
  (limit : uint) (w : W) : W * Outcome Page :=
  let mems : list Member := [] in
  let unlimited := (limit =? 0)%N in
  MembersAfter_for fuel guildID unlimited
    {| ls_after := after; ls_limit := limit; ls_mems := mems |} w.

(** member.go:24-26 *)
Definition Members (fuel : nat) (guildID : Snowflake) (limit : uint)
  (w : W) : W * Outcome Page :=
  MembersAfter fuel guildID 0%N limit w.

(** member.go:299-309.  The store holds the [uint] that
    [data.DeleteDays] points to. *)
Definition Ban (guildID userID : Snowflake) (data : BanData)
  (h : option.Store) (w : W)
  : option.Store * W * Outcome (Datatypes.option error) :=
  match DeleteDays data with
  | None => (h, w, Panicked)
  | Some p =>
      let h := if (7 <? h p)%N then option.store h p 7%N else h in
      let '(w, err) :=
        FastRequest {| ban_guild := guildID; ban_user := userID;
                       delete_message_days := h p;
                       reason := Reason data |} w in
      (h, w, Returned err)
  end.

End Client.

End api.

(** ** Observing a run

    The claims speak of the page requests a call makes.  They are observed
    by wrapping the client: the wrapped client answers as the given one
    does and appends every request, with its answer, to a trace kept next
    to the world. *)

Module trace.
Import discord api.

Record Call :=
  { call_guild : Snowflake; call_param : MembersParam; call_page : Page }.

Definition traced (W : Type)
  (exec : Snowflake -> MembersParam -> W -> W * Page)
  (guildID : Snowflake) (param : MembersParam) (wt : W * list Call)
  : (W * list Call) * Page :=
  let '(w, tr) := wt in
  let '(w', page) := exec guildID param w in
  ((w', tr ++ [{| call_guild := guildID; call_param := param;
                  call_page := page |}]), page).

Definition traced_ban (W : Type)
  (exec : BanRequest -> W -> W * Datatypes.option error)
  (req : BanRequest) (wt : W * list BanRequest)
  : (W * list BanRequest) * Datatypes.option error :=
  let '(w, tr) := wt in
  let '(w', err) := exec req w in
  ((w', tr ++ [req]), err).

(** The requested page sizes of a trace. *)
Definition sizes (tr : list Call) : list uint :=
  map (fun c => Limit (call_param c)) tr.

(** The identifier of the last record of a page, if the page has one. *)
Definition last_id (page : list Member) : Datatypes.option Snowflake :=
  match rev page with
  | [] => None
  | m :: _ => Some (ID (MemberUser m))
  end.

(** The records of the pages of a trace, in order. *)
Definition records (tr : list Call) : list Member :=
  concat (map (fun c => fst (call_page c)) tr).

(** The number of records a trace asked for, all requests together. *)
Definition asked (tr : list Call) : uint :=
  fold_right N.add 0%N (sizes tr).

(** A call at a glance: cursor, size asked for, number of records
    received and the identifier of the last of them. *)
Definition summary (c : Call)
  : Snowflake * uint * nat * Datatypes.option Snowflake :=
  (After (call_param c), Limit (call_param c),
   length (fst (call_page c)), last_id (fst (call_page c))).

End trace.

(** ** Servers used in the scenarios

    [source.exec] is the remote endpoint as the scenarios describe it: it
    holds a list of members in ascending order of identifier and answers a
    request with the members strictly after the cursor, as many as
    requested ([dflt] of them when the request carries [limit=0]); it
    never fails.  [scripted.exec] answers from a prepared list of pages,
    whatever the request. *)

Module source.
Import discord api.

Definition after_cursor (after : Snowflake) (m : Member) : bool :=
  (after <? ID (MemberUser m))%N.

Definition page (dflt : uint) (src : list Member) (p : MembersParam)
  : list Member :=
  let n := if (Limit p =? 0)%N then dflt else Limit p in
  firstn (N.to_nat n) (filter (after_cursor (After p)) src).

Definition exec (dflt : uint) (_ : Snowflake) (p : MembersParam)
  (src : list Member) : list Member * Page :=
  (src, (page dflt src p, None)).

(** Identifiers in strictly ascending order. *)
Fixpoint ascending (src : list Member) : bool :=
  match src with
  | [] => true
  | m :: rest =>
      match rest with
      | [] => true
      | m' :: _ => (ID (MemberUser m) <? ID (MemberUser m'))%N
      end && ascending rest
  end.

Definition member (id : Snowflake) : Member :=
  {| MemberUser := {| ID := id; Username := EmptyString |};
     Nick := EmptyString |}.

(** The members with identifiers [1 .. n]. *)
Definition members (n : nat) : list Member :=
  map (fun i => member (N.of_nat i)) (seq 1 n).

End source.

Module scripted.
Import discord api.

Definition exec (_ : Snowflake) (_ : MembersParam) (script : list Page)
  : list Page * Page :=
  match script with
  | [] => ([], ([], None))
  | page :: rest => (rest, page)
  end.

End scripted.

(** ** Reachable loop states *)

Module loop.
Import discord api.

Section Iterates.
Variable W : Type.
Variable RequestJSON : Snowflake -> MembersParam -> W -> W * Page.
Variable guildID : Snowflake.
Variable unlimited : bool.

(** [iterates c c']: the loop started in configuration [c] is in
    configuration [c'] at the head of some later (or the same)
    iteration. *)
Inductive iterates : LoopState * W -> LoopState * W -> Prop :=
| iterates_here c : iterates c c
| iterates_next s w s' w' c :
    MembersAfter_cond unlimited s = true ->
    MembersAfter_body RequestJSON guildID s w = (w', Continue s') ->
    iterates (s', w') c ->
    iterates (s, w) c.

End Iterates.

(** The request of the iteration that starts in state [s], and the call
    it makes: the request with the answer of the server. *)
Definition request (s : LoopState) : MembersParam :=
  {| After := ls_after s; Limit := fst (MembersAfter_fetch (ls_limit s)) |}.

Definition call (W : Type)
  (exec : Snowflake -> MembersParam -> W -> W * Page)
  (g : Snowflake) (s : LoopState) (w : W) : trace.Call :=
  {| trace.call_guild := g; trace.call_param := request s;
     trace.call_page := snd (exec g (request s) w) |}.

(** The number of records accumulated once the page of the iteration
    that starts in [s] is appended. *)
Definition total (W : Type)
  (exec : Snowflake -> MembersParam -> W -> W * Page)
  (g : Snowflake) (s : LoopState) (w : W) : int :=
  Z.of_nat (length (ls_mems s ++ fst (snd (exec g (request s) w)))).

(** The loop stops after the iteration that starts in [s]: however much
    fuel is left, the run makes the request of this iteration, no request
    after it, and returns. *)
Definition stops (W : Type)
  (exec : Snowflake -> MembersParam -> W -> W * Page)
  (g : Snowflake) (unlimited : bool) (s : LoopState) (w : W) : Prop :=
  forall fuel : nat,
  exists page,
    MembersAfter_for (trace.traced exec) (S fuel) g unlimited s (w, [])
    = ((fst (exec g (request s) w), [call exec g s w]), Returned page).

(** The invariant of the bounded loop: the records accumulated and the
    limit that remains stay within the limit [limit0] of the caller. *)
Definition within (limit0 : uint) (s : LoopState) : Prop :=
  (N.of_nat (length (ls_mems s)) + ls_limit s <= limit0)%N.

End loop.

(** ** package api: pruning (member.go:177-252)

    [PruneCount], [Prune] and [PruneWithCount] send the number of days as
    a schema-encoded parameter.  A request is its method, its URL and
    the fields of [param] under their schema tags, in the order of the
    struct.  [EndpointGuilds] and [Snowflake.String] are declared outside
    the sources at hand and are parameters. *)

Module prune.
Import discord.

Inductive Value :=
| Uint (n : uint)
| Bool (b : bool).

Record Request :=
  { method : string; url : string; schema : list (string * Value) }.

Section Client.

Variable W : Type.
Variable EndpointGuilds : string.
Variable SnowflakeString : Snowflake -> string.

(** [c.RequestJSON(&resp, method, url, WithSchema(c, param))], with
    [resp.Pruned] as the decoded value. *)
Variable RequestJSON : Request -> W -> W * (uint * Datatypes.option error).

(** [c.FastRequest(method, url, WithSchema(c, param))] *)
Variable FastRequest : Request -> W -> W * Datatypes.option error.

(** [EndpointGuilds+guildID.String()+"/prune"] *)
Definition prune_url (guildID : Snowflake) : string :=
  (EndpointGuilds ++ SnowflakeString guildID ++ "/prune")%string.

(** member.go:181-201 *)
Definition PruneCount (guildID : Snowflake) (days : uint) (w : W)
  : W * (uint * Datatypes.option error) :=
  let days := if (days =? 0)%N then 7%N else days in
  let param := [("days"%string, Uint days)] in
  RequestJSON {| method := "GET"; url := prune_url guildID;
                 schema := param |} w.

(** member.go:206-224 *)
Definition Prune (guildID : Snowflake) (days : uint) (w : W)
  : W * Datatypes.option error :=
  let days := if (days =? 0)%N then 7%N else days in
  let param := [("days"%string, Uint days);
                ("compute_prune_count"%string, Bool false)] in
  FastRequest {| method := "POST"; url := prune_url guildID;
                 schema := param |} w.

(** member.go:230-252 *)
Definition PruneWithCount (guildID : Snowflake) (days : uint) (w : W)
  : W * (uint * Datatypes.option error) :=
  let days := if (days =? 0)%N then 7%N else days in
  let param := [("days"%string, Uint days);
                ("compute_prune_count"%string, Bool true)] in
  RequestJSON {| method := "POST"; url := prune_url guildID;
                 schema := param |} w.

End Client.

(** The value a request carries under a schema key. *)
Fixpoint lookup (key : string) (fields : list (string * Value))
  : Datatypes.option Value :=
  match fields with
  | [] => None
  | (k, v) :: rest => if String.eqb k key then Some v else lookup key rest
  end.

(** The wrapped clients keep the requests they were handed. *)
Definition traced_json (W : Type)
  (exec : Request -> W -> W * (uint * Datatypes.option error))
  (req : Request) (wt : W * list Request)
  : (W * list Request) * (uint * Datatypes.option error) :=
  let '(w, tr) := wt in
  let '(w', r) := exec req w in
  ((w', tr ++ [req]), r).

Definition traced_fast (W : Type)
  (exec : Request -> W -> W * Datatypes.option error)
  (req : Request) (wt : W * list Request)
  : (W * list Request) * Datatypes.option error :=
  let '(w, tr) := wt in
  let '(w', r) := exec req w in
  ((w', tr ++ [req]), r).

End prune.

(** * Properties *)

Import discord api trace.

(** ** The page size of an iteration *)

Lemma uint_sub_exact (a b : uint) : (b <= a)%N -> uint_sub a b = (a - b)%N.
Proof.
  intros Hle. unfold uint_sub.
  destruct (N.leb_spec b a) as [_ | Hlt]; [reflexivity | lia].
Qed.

Lemma MembersAfter_fetch_bounded (limit : uint) :
  (0 < limit)%N ->
  MembersAfter_fetch limit = (N.min 1000 limit, (limit - N.min 1000 limit)%N).
Proof.
  intros Hpos. unfold MembersAfter_fetch, hardLimit.
  change (Z.to_N 1000) with 1000%N.
  destruct (N.ltb_spec 0 limit) as [_ | Hle]; [| lia].
  destruct (N.ltb_spec limit 1000) as [Hlt | Hge].
  - rewrite N.min_r by lia. rewrite uint_sub_exact by lia. reflexivity.
  - rewrite N.min_l by lia. rewrite uint_sub_exact by lia. reflexivity.
Qed.

Lemma MembersAfter_fetch_unlimited :
  MembersAfter_fetch 0%N = (1000%N, 0%N).
Proof. reflexivity. Qed.

(** The size handed to [membersAfter] is never 0 and never above 1000. *)
Lemma MembersAfter_fetch_range (limit : uint) :
  (1 <= fst (MembersAfter_fetch limit) <= 1000)%N.
Proof.
  destruct (N.eq_dec limit 0) as [-> | Hnz].
  - rewrite MembersAfter_fetch_unlimited. simpl. lia.
  - rewrite MembersAfter_fetch_bounded by lia. simpl. lia.
Qed.

(** [limit -= fetch] does not wrap: the limit that remains is at most the
    limit before. *)
Lemma MembersAfter_fetch_no_wrap (limit : uint) :
  (snd (MembersAfter_fetch limit) <= limit)%N.
Proof.
  destruct (N.eq_dec limit 0) as [-> | Hnz].
  - rewrite MembersAfter_fetch_unlimited. simpl. lia.
  - rewrite MembersAfter_fetch_bounded by lia. simpl. lia.
Qed.

(** ** One page *)

Section OnePage.
Variable W : Type.
Variable exec : Snowflake -> MembersParam -> W -> W * Page.

Lemma membersAfter_sends (g after : Snowflake) (limit : uint) (w : W) :
  membersAfter exec g after limit w
  = exec g {| After := after; Limit := N.min limit 1000 |} w.
Proof.
  unfold membersAfter.
  destruct (N.eqb_spec limit 0) as [-> | Hnz]; [reflexivity |].
  destruct (N.ltb_spec 1000 limit) as [Hgt | Hle].
  - rewrite N.min_r by lia. reflexivity.
  - rewrite N.min_l by lia. reflexivity.
Qed.

Lemma membersAfter_in_range (g after : Snowflake) (n : uint) (w : W) :
  (n <= 1000)%N ->
  membersAfter exec g after n w
  = exec g {| After := after; Limit := n |} w.
Proof.
  intros Hle. rewrite membersAfter_sends, N.min_l by lia. reflexivity.
Qed.

Lemma traced_call (g : Snowflake) (p : MembersParam) (w : W)
  (tr : list Call) :
  traced exec g p (w, tr)
  = ((fst (exec g p w),
      tr ++ [{| call_guild := g; call_param := p;
                call_page := snd (exec g p w) |}]),
     snd (exec g p w)).
Proof. unfold traced. destruct (exec g p w); reflexivity. Qed.

End OnePage.

(** C9.  The limit that [membersAfter] puts in the query is the requested
    size brought down to 1000: a request above 1000 is sent as 1000, a
    request from 1 to 1000 is sent as it is, and a request of 0 is sent
    as 0.  The call issues exactly this one request, with the cursor it
    was given. *)
Theorem membersAfter_clamps_limit :
  forall (W : Type) (exec : Snowflake -> MembersParam -> W -> W * Page)
    (g after : Snowflake) (limit : uint) (w : W) (tr : list Call),
    let sent := snd (fst (membersAfter (traced exec) g after limit (w, tr))) in
    map call_param sent
    = map call_param tr ++ [{| After := after; Limit := N.min limit 1000 |}]
    /\ ((1000 < limit)%N -> sizes sent = sizes tr ++ [1000%N])
    /\ ((1 <= limit <= 1000)%N -> sizes sent = sizes tr ++ [limit])
    /\ (limit = 0%N -> sizes sent = sizes tr ++ [0%N]).
Proof.
  intros W exec g after limit w tr sent. subst sent.
  rewrite membersAfter_sends, traced_call. cbn [fst snd].
  unfold sizes. rewrite !map_app. cbn [map call_param Limit].
  repeat split.
  - intros H. rewrite N.min_r by lia. reflexivity.
  - intros H. rewrite N.min_l by lia. reflexivity.
  - intros ->. reflexivity.
Qed.

Lemma membersAfter_clamps_limit_witness :
  sizes (snd (fst (membersAfter (traced (source.exec 1%N)) 7%N 0%N 1500%N
                     (source.members 3, [])))) = [1000%N]
  /\ sizes (snd (fst (membersAfter (traced (source.exec 1%N)) 7%N 0%N 1000%N
                        (source.members 3, [])))) = [1000%N]
  /\ sizes (snd (fst (membersAfter (traced (source.exec 1%N)) 7%N 0%N 0%N
                        (source.members 3, [])))) = [0%N].
Proof.
  split; [| split].
  - apply (membersAfter_clamps_limit (source.exec 1%N) 7%N 0%N 1500%N
             (source.members 3) []). reflexivity.
  - apply (membersAfter_clamps_limit (source.exec 1%N) 7%N 0%N 1000%N
             (source.members 3) []). lia.
  - apply (membersAfter_clamps_limit (source.exec 1%N) 7%N 0%N 0%N
             (source.members 3) []). reflexivity.
Defined.

(** ** One iteration *)

Lemma nth_error_hardLimit (A : Type) (l : list A) :
  (Z.of_nat (length l) <? hardLimit)%Z = false ->
  exists x, nth_error l (Z.to_nat (hardLimit - 1)) = Some x.
Proof.
  intros Hlen. apply Z.ltb_ge in Hlen. unfold hardLimit in *.
  destruct (nth_error l (Z.to_nat (1000 - 1))) as [x |] eqn:Hnth.
  - exists x. reflexivity.
  - apply nth_error_None in Hnth. lia.
Qed.

Section Iteration.
Variable W : Type.
Variable exec : Snowflake -> MembersParam -> W -> W * Page.
Variable g : Snowflake.

(** The body, case by case on the answer of the server. *)
Lemma MembersAfter_body_cases (s : LoopState) (w : W) :
  let p := {| After := ls_after s;
              Limit := fst (MembersAfter_fetch (ls_limit s)) |} in
  let w' := fst (exec g p w) in
  let m := fst (snd (exec g p w)) in
  let mems := ls_mems s ++ m in
  match snd (snd (exec g p w)) with
  | Some e => MembersAfter_body exec g s w = (w', ReturnErr (ls_mems s) e)
  | None =>
      if (Z.of_nat (length mems) <? hardLimit)%Z
      then MembersAfter_body exec g s w = (w', Break mems)
      else exists x,
          nth_error mems (Z.to_nat (hardLimit - 1)) = Some x
          /\ MembersAfter_body exec g s w
             = (w', Continue
                      {| ls_after := ID (MemberUser x);
                         ls_limit := snd (MembersAfter_fetch (ls_limit s));
                         ls_mems := mems |})
  end.
Proof.
  unfold MembersAfter_body.
  pose proof (MembersAfter_fetch_range (ls_limit s)) as Hrange.
  destruct (MembersAfter_fetch (ls_limit s)) as [fetch limit'].
  cbn [fst snd] in *.
  rewrite membersAfter_in_range by lia.
  destruct (exec g {| After := ls_after s; Limit := fetch |} w)
    as [w' [m [e |]]]; cbn [fst snd]; [reflexivity |].
  destruct (Z.of_nat (length (ls_mems s ++ m)) <? hardLimit)%Z eqn:Hlen;
    [reflexivity |].
  destruct (nth_error_hardLimit _ Hlen) as [x Hx].
  exists x. rewrite Hx. split; reflexivity.
Qed.

(** The index expression [mems[hardLimit-1]] is always in range. *)
Lemma MembersAfter_body_in_range (s : LoopState) (w : W) :
  snd (MembersAfter_body exec g s w) <> IndexOutOfRange.
Proof.
  pose proof (MembersAfter_body_cases s w) as H. cbv zeta in H.
  destruct (snd (snd (exec g _ w))).
  - rewrite H. discriminate.
  - destruct (Z.of_nat _ <? hardLimit)%Z.
    + rewrite H. discriminate.
    + destruct H as [x [_ H]]. rewrite H. discriminate.
Qed.

End Iteration.

(** ** Runs and their traces *)

Section Runs.
Variable W : Type.
Variable exec : Snowflake -> MembersParam -> W -> W * Page.
Variable g : Snowflake.

(** An iteration of the traced client appends exactly one call: the
    request of the iteration and the answer the server gave. *)
Lemma MembersAfter_body_traced (s : LoopState) (w : W) (tr : list Call) :
  let p := {| After := ls_after s;
              Limit := fst (MembersAfter_fetch (ls_limit s)) |} in
  MembersAfter_body (traced exec) g s (w, tr)
  = ((fst (MembersAfter_body exec g s w),
      tr ++ [{| call_guild := g; call_param := p;
                call_page := snd (exec g p w) |}]),
     snd (MembersAfter_body exec g s w)).
Proof.
  intros p. subst p.
  pose proof (MembersAfter_body_cases (traced exec) g s (w, tr)) as Ht.
  pose proof (MembersAfter_body_cases exec g s w) as Hu.
  cbv zeta in Ht, Hu.
  rewrite traced_call in Ht. cbn [fst snd] in Ht.
  destruct (exec g _ w) as [w' [m [e |]]]; cbn [fst snd] in *.
  - rewrite Ht, Hu. reflexivity.
  - destruct (Z.of_nat _ <? hardLimit)%Z.
    + rewrite Ht, Hu. reflexivity.
    + destruct Ht as [x [Hx Ht]]. destruct Hu as [y [Hy Hu]].
      rewrite Ht, Hu. cbn [fst snd]. congruence.
Qed.

(** Tracing does not change what the loop does. *)
Lemma MembersAfter_for_traced (fuel : nat) (unlimited : bool) :
  forall (s : LoopState) (w : W) (tr : list Call),
    fst (fst (MembersAfter_for (traced exec) fuel g unlimited s (w, tr)))
    = fst (MembersAfter_for exec fuel g unlimited s w)
    /\ snd (MembersAfter_for (traced exec) fuel g unlimited s (w, tr))
       = snd (MembersAfter_for exec fuel g unlimited s w).
Proof.
  induction fuel as [| fuel IH]; intros s w tr; cbn [MembersAfter_for];
    destruct (MembersAfter_cond unlimited s); try (split; reflexivity).
  rewrite MembersAfter_body_traced. cbv zeta.
  destruct (MembersAfter_body exec g s w) as [w' [s' | mems | mems e |]];
    cbn [fst snd]; try (split; reflexivity).
  apply IH.
Qed.

(** [MembersAfter] does not panic: the only index expression is in
    range whenever it is reached. *)
Lemma MembersAfter_for_no_panic (fuel : nat) (unlimited : bool) :
  forall (s : LoopState) (w : W),
    snd (MembersAfter_for exec fuel g unlimited s w) <> Panicked.
Proof.
  induction fuel as [| fuel IH]; intros s w; cbn [MembersAfter_for];
    destruct (MembersAfter_cond unlimited s); try discriminate.
  pose proof (MembersAfter_body_in_range exec g s w) as Hin.
  destruct (MembersAfter_body exec g s w) as [w' [s' | mems | mems e |]];
    cbn [snd] in *; try discriminate; [apply IH | congruence].
Qed.

End Runs.


(** ** Failure of a page *)

Section Failure.
Variable W : Type.
Variable exec : Snowflake -> MembersParam -> W -> W * Page.
Variable g : Snowflake.

(** From any loop state: the calls a run makes are appended to the trace,
    and if one of them failed it is the last one, the run has returned its
    error, and the records returned are those held at the start followed
    by the pages of the calls before it. *)
Lemma MembersAfter_for_failure (fuel : nat) (unlimited : bool) :
  forall (s : LoopState) (w : W) (tr0 : list Call),
  exists new,
    snd (fst (MembersAfter_for (traced exec) fuel g unlimited s (w, tr0)))
    = tr0 ++ new
    /\ forall i c e,
        nth_error new i = Some c ->
        snd (call_page c) = Some e ->
        snd (MembersAfter_for (traced exec) fuel g unlimited s (w, tr0))
        = Returned (ls_mems s ++ records (firstn i new), Some e)
        /\ length new = S i
        /\ forall c', In c' (firstn i new) -> snd (call_page c') = None.
Proof.
  induction fuel as [| fuel IH]; intros s w tr0; cbn [MembersAfter_for];
    destruct (MembersAfter_cond unlimited s);
    try (exists []; rewrite app_nil_r; split; [reflexivity |];
         intros [| i] c e Hnth; discriminate Hnth).
  rewrite MembersAfter_body_traced. cbv zeta.
  pose proof (MembersAfter_body_cases exec g s w) as Hb. cbv zeta in Hb.
  set (p := {| After := ls_after s;
               Limit := fst (MembersAfter_fetch (ls_limit s)) |}) in *.
  set (c0 := {| call_guild := g; call_param := p;
                call_page := snd (exec g p w) |}).
  assert (Hc0 : call_page c0 = snd (exec g p w)) by reflexivity.
  destruct (snd (exec g p w)) as [m err] eqn:Hpage.
  cbn [fst snd] in Hb. destruct err as [e0 |].
  - (* the call failed *)
    rewrite Hb. cbn [fst snd]. exists [c0]. split; [reflexivity |].
    intros [| i] c e Hnth Herr.
    + injection Hnth as <-. rewrite Hc0 in Herr. cbn in Herr.
      injection Herr as <-. unfold records. cbn.
      rewrite app_nil_r. repeat split. intros c' [].
    + destruct i; discriminate Hnth.
  - destruct (Z.of_nat _ <? hardLimit)%Z.
    + (* break *)
      rewrite Hb. cbn [fst snd]. exists [c0]. split; [reflexivity |].
      intros [| i] c e Hnth Herr.
      * injection Hnth as <-. rewrite Hc0 in Herr. discriminate Herr.
      * destruct i; discriminate Hnth.
    + (* next iteration *)
      destruct Hb as [x [_ Hb]]. rewrite Hb. cbn [fst snd].
      destruct (IH {| ls_after := ID (MemberUser x);
                      ls_limit := snd (MembersAfter_fetch (ls_limit s));
                      ls_mems := ls_mems s ++ m |}
                   (fst (exec g p w)) (tr0 ++ [c0])) as [new [Htr Hnew]].
      exists (c0 :: new). split.
      * rewrite Htr, <- app_assoc. reflexivity.
      * intros [| i] c e Hnth Herr.
        -- injection Hnth as <-. rewrite Hc0 in Herr. discriminate Herr.
        -- cbn [nth_error] in Hnth.
           destruct (Hnew i c e Hnth Herr) as [Hout [Hlen Hok]].
           rewrite Hout. cbn [ls_mems firstn length]. unfold records.
           cbn [map concat]. rewrite Hc0. cbn [fst].
           rewrite <- app_assoc. repeat split.
           ++ congruence.
           ++ intros c' [<- | Hin]; [rewrite Hc0; reflexivity | auto].
Qed.

End Failure.

(** C5.  Whatever the server does, if some page request of a call of
    [MembersAfter] fails, then that request is the last one the call makes,
    every request before it succeeded, and the call returns (whatever
    fuel it was given) that same error together with the records of the
    pages fetched before it, in order. *)
Theorem MembersAfter_error_keeps_accumulated :
  forall (W : Type) (exec : Snowflake -> MembersParam -> W -> W * Page)
    (fuel : nat) (g after : Snowflake) (limit : uint) (w : W)
    (i : nat) (c : Call) (e : error),
    let run := MembersAfter (traced exec) fuel g after limit (w, []) in
    let tr := snd (fst run) in
    nth_error tr i = Some c ->
    snd (call_page c) = Some e ->
    snd run = Returned (records (firstn i tr), Some e)
    /\ length tr = S i
    /\ forall c', In c' (firstn i tr) -> snd (call_page c') = None.
Proof.
  intros W exec fuel g after limit w i c e run tr Hnth Herr.
  subst tr run. unfold MembersAfter in *.
  destruct (MembersAfter_for_failure exec g fuel (limit =? 0)%N
              {| ls_after := after; ls_limit := limit; ls_mems := [] |}
              w []) as [new [Htr Hnew]].
  cbn [app] in Htr. rewrite Htr in *.
  destruct (Hnew i c e Hnth Herr) as [Hout [Hlen Hok]].
  cbn [ls_mems app] in Hout. auto.
Qed.

Lemma MembersAfter_error_keeps_accumulated_witness :
  snd (MembersAfter (traced scripted.exec) 3 7%N 0%N 0%N
         ([(source.members 1000, None); ([], Some "EOF"%string)], []))
  = Returned (source.members 1000, Some "EOF"%string).
Proof.
  pose (c := {| call_guild := 7%N;
                call_param := {| After := 1000%N; Limit := 1000%N |};
                call_page := ([], Some "EOF"%string) |}).
  assert (Hnth :
    nth_error
      (snd (fst (MembersAfter (traced scripted.exec) 3 7%N 0%N 0%N
                   ([(source.members 1000, None); ([], Some "EOF"%string)],
                    [])))) 1 = Some c) by (vm_compute; reflexivity).
  destruct (MembersAfter_error_keeps_accumulated scripted.exec 3 7%N 0%N 0%N
              [(source.members 1000, None); ([], Some "EOF"%string)]
              1 Hnth eq_refl) as [Hout _].
  etransitivity; [exact Hout |]. vm_compute. reflexivity.
Defined.

(** ** The stop check *)

Section StopCheck.
Variable W : Type.
Variable exec : Snowflake -> MembersParam -> W -> W * Page.
Variable g : Snowflake.

(** An iteration that goes on: the run is the run from the next state,
    with the call of this iteration added to the trace. *)
Lemma MembersAfter_for_step (unlimited : bool) (s s1 : LoopState)
  (w w1 : W) :
  MembersAfter_cond unlimited s = true ->
  MembersAfter_body exec g s w = (w1, Continue s1) ->
  forall (fuel : nat) (tr : list Call),
    MembersAfter_for (traced exec) (S fuel) g unlimited s (w, tr)
    = MembersAfter_for (traced exec) fuel g unlimited s1
        (w1, tr ++ [loop.call exec g s w]).
Proof.
  intros Hcond Hbody fuel tr. cbn [MembersAfter_for].
  rewrite Hcond, MembersAfter_body_traced. cbv zeta. rewrite Hbody.
  reflexivity.
Qed.

(** A run that enters the loop with fuel makes the request of its first
    iteration before anything else. *)
Lemma MembersAfter_for_first_request (unlimited : bool) (s : LoopState)
  (w : W) :
  MembersAfter_cond unlimited s = true ->
  forall (fuel : nat) (tr : list Call),
  exists rest,
    snd (fst (MembersAfter_for (traced exec) (S fuel) g unlimited s (w, tr)))
    = tr ++ loop.call exec g s w :: rest.
Proof.
  intros Hcond fuel tr. cbn [MembersAfter_for].
  rewrite Hcond, MembersAfter_body_traced. cbv zeta.
  destruct (MembersAfter_body exec g s w) as [w1 [s1 | ms | ms e |]];
    cbn [fst snd]; try (exists []; reflexivity).
  destruct (MembersAfter_for_failure exec g fuel unlimited s1 w1
              (tr ++ [loop.call exec g s w])) as [new [Htr _]].
  exists new.
  change (tr ++ [{| call_guild := g;
                    call_param :=
                      {| After := ls_after s;
                         Limit := fst (MembersAfter_fetch (ls_limit s)) |};
                    call_page :=
                      snd (exec g
                             {| After := ls_after s;
                                Limit := fst (MembersAfter_fetch
                                                (ls_limit s)) |} w) |}])
    with (tr ++ [loop.call exec g s w]).
  rewrite Htr, <- app_assoc. reflexivity.
Qed.

(** After an iteration whose request succeeded the loop makes no further
    request exactly when fewer than 1000 records are accumulated (the
    [break]) or the loop is a bounded one and this request has used up
    the limit (the condition of the [for]). *)
Lemma MembersAfter_for_stops_iff (unlimited : bool) (s : LoopState)
  (w : W) :
  snd (snd (exec g (loop.request s) w)) = None ->
  MembersAfter_cond unlimited s = true ->
  loop.stops exec g unlimited s w
  <-> ((loop.total exec g s w < hardLimit)%Z
       \/ (unlimited = false
           /\ snd (MembersAfter_fetch (ls_limit s)) = 0%N)).
Proof.
  intros Hok Hcond.
  pose proof (MembersAfter_body_cases exec g s w) as Hb. cbv zeta in Hb.
  change {| After := ls_after s;
            Limit := fst (MembersAfter_fetch (ls_limit s)) |}
    with (loop.request s) in Hb.
  rewrite Hok in Hb. unfold loop.total.
  destruct (Z.ltb_spec
              (Z.of_nat (length (ls_mems s
                                 ++ fst (snd (exec g (loop.request s) w)))))
              hardLimit) as [Hlt | Hge].
  - (* the break *)
    split; [intros _; left; exact Hlt |].
    intros _ fuel. eexists. cbn [MembersAfter_for].
    rewrite Hcond, MembersAfter_body_traced. cbv zeta. rewrite Hb.
    reflexivity.
  - destruct Hb as [x [_ Hb]].
    set (s1 := {| ls_after := ID (MemberUser x);
                  ls_limit := snd (MembersAfter_fetch (ls_limit s));
                  ls_mems := ls_mems s
                             ++ fst (snd (exec g (loop.request s) w)) |})
      in Hb.
    destruct (MembersAfter_cond unlimited s1) eqn:Hnext.
    + (* the loop goes on *)
      split.
      * intros Hstops. exfalso. destruct (Hstops 1%nat) as [page Hrun].
        rewrite (@MembersAfter_for_step unlimited s s1 w _ Hcond Hb) in Hrun.
        destruct (@MembersAfter_for_first_request unlimited s1
                    (fst (exec g (loop.request s) w)) Hnext 0
                    ([] ++ [loop.call exec g s w])) as [rest Hrest].
        rewrite Hrun in Hrest. cbn [fst snd app] in Hrest.
        discriminate Hrest.
      * intros [Hlt | [Hu Hz]]; [lia |]. exfalso.
        unfold MembersAfter_cond in Hnext. subst s1.
        cbn [ls_limit] in Hnext. rewrite Hu, Hz in Hnext.
        discriminate Hnext.
    + (* the limit is used up *)
      split.
      * intros _. right. unfold MembersAfter_cond in Hnext. subst s1.
        cbn [ls_limit] in Hnext. apply orb_false_iff in Hnext.
        destruct Hnext as [Hz Hu]. apply N.ltb_ge in Hz.
        split; [exact Hu | lia].
      * intros _ fuel. exists (ls_mems s1, None).
        rewrite (@MembersAfter_for_step unlimited s s1 w _ Hcond Hb).
        destruct fuel; cbn [MembersAfter_for]; rewrite Hnext; reflexivity.
Qed.

End StopCheck.

(** C4, amended.  After an iteration of the loop whose page request
    succeeded:
    - the [break] is taken exactly when the total number of records
      accumulated, the new page included, is below 1000; the check is on
      that total, not on the size of the page;
    - the loop makes no further request exactly when that total is below
      1000 or, for a call with a limit other than 0, when this request
      has used up the limit; for a call with limit 0 it stops exactly
      when the total is below 1000;
    - otherwise the loop goes on from the next state, with the page
      appended and the call of this iteration in the trace, and its next
      request follows;
    - a first page of fewer than 1000 records ends the call after that
      single request. *)
Theorem MembersAfter_stops_on_total_or_limit :
  forall (W : Type) (exec : Snowflake -> MembersParam -> W -> W * Page)
    (g : Snowflake) (unlimited : bool) (s : LoopState) (w : W),
    let page := snd (exec g (loop.request s) w) in
    let w1 := fst (exec g (loop.request s) w) in
    let total := loop.total exec g s w in
    let rest := snd (MembersAfter_fetch (ls_limit s)) in
    snd page = None ->
    MembersAfter_cond unlimited s = true ->
    ((exists mems, snd (MembersAfter_body exec g s w) = Break mems)
     <-> (total < hardLimit)%Z)
    /\ (loop.stops exec g unlimited s w
        <-> ((total < hardLimit)%Z \/ (unlimited = false /\ rest = 0%N)))
    /\ (unlimited = true ->
        (loop.stops exec g unlimited s w <-> (total < hardLimit)%Z))
    /\ ((hardLimit <= total)%Z ->
        exists s1,
          ls_mems s1 = ls_mems s ++ fst page
          /\ ls_limit s1 = rest
          /\ (forall (fuel : nat) (tr : list Call),
                MembersAfter_for (traced exec) (S fuel) g unlimited s (w, tr)
                = MembersAfter_for (traced exec) fuel g unlimited s1
                    (w1, tr ++ [loop.call exec g s w]))
          /\ (MembersAfter_cond unlimited s1 = true ->
              forall (fuel : nat) (tr : list Call),
              exists more,
                snd (fst (MembersAfter_for (traced exec) (S (S fuel)) g
                            unlimited s (w, tr)))
                = tr ++ loop.call exec g s w
                     :: loop.call exec g s1 w1 :: more))
    /\ (ls_mems s = [] -> (Z.of_nat (length (fst page)) < hardLimit)%Z ->
        forall fuel : nat,
          MembersAfter (traced exec) (S fuel) g (ls_after s) (ls_limit s)
            (w, [])
          = ((w1, [loop.call exec g s w]), Returned (fst page, None))).
Proof.
  intros W exec g unlimited s w page w1 total rest Hok Hcond.
  pose proof (@MembersAfter_for_stops_iff W exec g unlimited s w Hok Hcond)
    as Hstops.
  pose proof (MembersAfter_body_cases exec g s w) as Hb. cbv zeta in Hb.
  change {| After := ls_after s;
            Limit := fst (MembersAfter_fetch (ls_limit s)) |}
    with (loop.request s) in Hb.
  fold page in Hb. rewrite Hok in Hb. fold w1 in Hb.
  change (Z.of_nat (length (ls_mems s ++ fst page))) with total in Hb.
  split; [| split; [| split; [| split]]].
  - (* the break *)
    destruct (Z.ltb_spec total hardLimit) as [Hlt | Hge].
    + split; [intros _; exact Hlt |].
      intros _. eexists. rewrite Hb. reflexivity.
    + destruct Hb as [x [_ Hb]]. split; [| lia].
      intros [mems Hbreak]. rewrite Hb in Hbreak. discriminate Hbreak.
  - exact Hstops.
  - intros Hu. rewrite Hstops. split; [| tauto].
    intros [Hlt | [Habs _]]; [exact Hlt | congruence].
  - (* the loop goes on *)
    intros Hge.
    destruct (Z.ltb_spec total hardLimit) as [Hlt | _]; [lia |].
    destruct Hb as [x [_ Hb]].
    exists {| ls_after := ID (MemberUser x); ls_limit := rest;
              ls_mems := ls_mems s ++ fst page |}.
    split; [| split; [| split]].
    + reflexivity.
    + reflexivity.
    + intros fuel tr.
      exact (@MembersAfter_for_step W exec g unlimited s _ w w1 Hcond Hb
               fuel tr).
    + intros Hnext fuel tr.
      rewrite (@MembersAfter_for_step W exec g unlimited s _ w w1 Hcond Hb).
      destruct (@MembersAfter_for_first_request W exec g unlimited _ w1
                  Hnext fuel
                  (tr ++ [loop.call exec g s w])) as [more Hmore].
      exists more. subst rest. rewrite Hmore, <- app_assoc. reflexivity.
  - (* a short first page *)
    intros Hnil Hfirst fuel. unfold MembersAfter.
    destruct s as [a l ms]. cbn [ls_mems ls_after ls_limit] in *. subst ms.
    assert (Hc : MembersAfter_cond (l =? 0)%N
                   {| ls_after := a; ls_limit := l; ls_mems := [] |} = true).
    { unfold MembersAfter_cond. cbn [ls_limit].
      destruct (N.eqb_spec l 0) as [-> | Hnz]; [reflexivity |].
      destruct (N.ltb_spec 0 l); [reflexivity | lia]. }
    assert (Hlt : (total <? hardLimit)%Z = true)
      by (apply Z.ltb_lt; exact Hfirst).
    rewrite Hlt in Hb. cbn [MembersAfter_for].
    rewrite Hc, MembersAfter_body_traced. cbv zeta. rewrite Hb.
    reflexivity.
Qed.

Lemma MembersAfter_stops_on_total_or_limit_witness :
  loop.stops (source.exec 1%N) 7%N true
    {| ls_after := 0%N; ls_limit := 0%N; ls_mems := [] |} (source.members 3)
  /\ MembersAfter (traced (source.exec 1%N)) 1 7%N 0%N 0%N
       (source.members 3, [])
     = ((source.members 3,
         [{| call_guild := 7%N;
             call_param := {| After := 0%N; Limit := 1000%N |};
             call_page := (source.members 3, None) |}]),
        Returned (source.members 3, None))
  /\ loop.stops (source.exec 1%N) 7%N false
       {| ls_after := 0%N; ls_limit := 1000%N; ls_mems := [] |}
       (source.members 1000)
  /\ ~ loop.stops (source.exec 1%N) 7%N true
         {| ls_after := 0%N; ls_limit := 0%N; ls_mems := [] |}
         (source.members 1500).
Proof.
  destruct (MembersAfter_stops_on_total_or_limit (source.exec 1%N) 7%N true
              {| ls_after := 0%N; ls_limit := 0%N; ls_mems := [] |}
              (source.members 3) eq_refl eq_refl)
    as [_ [Hshort [_ [_ Hfirst]]]].
  destruct (MembersAfter_stops_on_total_or_limit (source.exec 1%N) 7%N false
              {| ls_after := 0%N; ls_limit := 1000%N; ls_mems := [] |}
              (source.members 1000) eq_refl eq_refl)
    as [_ [Hlimit _]].
  destruct (MembersAfter_stops_on_total_or_limit (source.exec 1%N) 7%N true
              {| ls_after := 0%N; ls_limit := 0%N; ls_mems := [] |}
              (source.members 1500) eq_refl eq_refl)
    as [_ [_ [Hfull _]]].
  split; [| split; [| split]].
  - apply Hshort. left. reflexivity.
  - apply (Hfirst eq_refl); reflexivity.
  - apply Hlimit. right. split; reflexivity.
  - intros Hstops. apply (Hfull eq_refl) in Hstops.
    vm_compute in Hstops. discriminate Hstops.
Defined.

(** C4 as it is written fails for a bounded call.  With limit 1000
    against a source of 1000 records the first request succeeds and
    brings the total to 1000, which is not below 1000, and yet the loop
    makes no further request: the request has used up the limit and the
    condition of the [for] ends the loop. *)
Lemma MembersAfter_stops_with_1000_accumulated :
  let s := {| ls_after := 0%N; ls_limit := 1000%N; ls_mems := [] |} in
  let run := MembersAfter (traced (source.exec 1%N)) 5 7%N 0%N 1000%N
               (source.members 1000, []) in
  snd (snd (source.exec 1%N 7%N (loop.request s) (source.members 1000)))
  = None
  /\ MembersAfter_cond false s = true
  /\ snd run = Returned (source.members 1000, None)
  /\ length (snd (fst run)) = 1%nat
  /\ ~ (loop.stops (source.exec 1%N) 7%N false s (source.members 1000)
        <-> (loop.total (source.exec 1%N) 7%N s (source.members 1000)
             < hardLimit)%Z).
Proof.
  cbv zeta.
  split; [reflexivity | split; [reflexivity |]].
  split; [vm_compute; reflexivity | split; [vm_compute; reflexivity |]].
  intros [Honly _].
  assert (Hstops : loop.stops (source.exec 1%N) 7%N false
                     {| ls_after := 0%N; ls_limit := 1000%N;
                        ls_mems := [] |} (source.members 1000)).
  { apply MembersAfter_for_stops_iff; [reflexivity | reflexivity |].
    right. split; reflexivity. }
  apply Honly in Hstops. vm_compute in Hstops. discriminate Hstops.
Qed.

(** ** The limit of the caller *)

Section Bounded.
Variable W : Type.
Variable exec : Snowflake -> MembersParam -> W -> W * Page.
Variable g : Snowflake.
Variable limit0 : uint.

(** Every page holds at most the number of records that was asked for. *)
Hypothesis page_bounded :
  forall (a : Snowflake) (n : uint) (w : W),
    (0 < n)%N ->
    (N.of_nat (length (fst (snd (membersAfter exec g a n w)))) <= n)%N.

Lemma MembersAfter_body_bounded (s : LoopState) (w : W) :
  MembersAfter_cond false s = true ->
  loop.within limit0 s ->
  match snd (MembersAfter_body exec g s w) with
  | Continue s' =>
      loop.within limit0 s' /\ ls_limit s' = (ls_limit s - N.min 1000 (ls_limit s))%N
  | Break mems => (N.of_nat (length mems) <= limit0)%N
  | ReturnErr mems _ => (N.of_nat (length mems) <= limit0)%N
  | IndexOutOfRange => False
  end.
Proof.
  unfold MembersAfter_cond, loop.within. rewrite orb_false_r.
  intros Hpos Hinv.
  apply N.ltb_lt in Hpos.
  pose proof (MembersAfter_body_cases exec g s w) as Hb. cbv zeta in Hb.
  pose proof (MembersAfter_fetch_range (ls_limit s)) as Hrange.
  assert (Hpage := @page_bounded (ls_after s)
                     (fst (MembersAfter_fetch (ls_limit s))) w).
  rewrite membersAfter_in_range in Hpage by lia.
  assert (Hfetch : (0 < fst (MembersAfter_fetch (ls_limit s)))%N) by lia.
  specialize (Hpage Hfetch). clear Hfetch.
  rewrite MembersAfter_fetch_bounded in * by lia. cbn [fst snd] in *.
  destruct (exec g _ w) as [w' [m [e |]]]; cbn [fst snd] in *.
  - rewrite Hb. cbn. lia.
  - assert (Hlen : (N.of_nat (length (ls_mems s ++ m)) + 
                     (ls_limit s - N.min 1000 (ls_limit s)) <= limit0)%N)
      by (rewrite length_app; lia).
    destruct (Z.of_nat _ <? hardLimit)%Z.
    + rewrite Hb. cbn [snd]. lia.
    + destruct Hb as [x [_ Hb]]. rewrite Hb. cbn [snd ls_mems ls_limit].
      split; [exact Hlen | reflexivity].
Qed.

(** Whenever the bounded loop returns, it returns at most [limit0]
    records. *)
Lemma MembersAfter_for_bounded (fuel : nat) :
  forall (s : LoopState) (w : W) (w' : W) (mems : list Member)
    (err : Datatypes.option error),
    loop.within limit0 s ->
    MembersAfter_for exec fuel g false s w = (w', Returned (mems, err)) ->
    (N.of_nat (length mems) <= limit0)%N.
Proof.
  induction fuel as [| fuel IH]; intros s w w' mems err Hinv;
    cbn [MembersAfter_for];
    destruct (MembersAfter_cond false s) eqn:Hcond; intros Hrun;
    try discriminate Hrun;
    try (injection Hrun as _ <- _; unfold loop.within in Hinv; lia).
  pose proof (@MembersAfter_body_bounded s w Hcond Hinv) as Hb.
  destruct (MembersAfter_body exec g s w) as [w1 [s1 | ms | ms e |]];
    cbn [snd] in Hb.
  - apply (IH s1 w1 w' mems err); tauto.
  - injection Hrun as _ <- _. exact Hb.
  - injection Hrun as _ <- _. exact Hb.
  - contradiction.
Qed.

(** The bounded loop returns after at most [limit / 1000] requests,
    rounded up. *)
Lemma MembersAfter_for_returns (fuel : nat) :
  forall (s : LoopState) (w : W),
    loop.within limit0 s ->
    (N.to_nat ((ls_limit s + 999) / 1000) <= fuel)%nat ->
    exists w' page, MembersAfter_for exec fuel g false s w
                    = (w', Returned page).
Proof.
  induction fuel as [| fuel IH]; intros s w Hinv Hfuel;
    cbn [MembersAfter_for];
    destruct (MembersAfter_cond false s) eqn:Hcond;
    try (eexists; eexists; reflexivity).
  - (* no fuel, yet something is left to fetch *)
    unfold MembersAfter_cond in Hcond. rewrite orb_false_r in Hcond.
    apply N.ltb_lt in Hcond.
    assert (1 <= (ls_limit s + 999) / 1000)%N.
    { apply N.div_le_lower_bound; lia. }
    lia.
  - pose proof (@MembersAfter_body_bounded s w Hcond Hinv) as Hb.
    destruct (MembersAfter_body exec g s w) as [w1 [s1 | ms | ms e |]];
      cbn [snd] in Hb; try (eexists; eexists; reflexivity);
      [| contradiction].
    destruct Hb as [Hinv1 Hlim1]. apply IH; [exact Hinv1 |].
    rewrite Hlim1.
    destruct (N.le_gt_cases (ls_limit s) 1000) as [Hle | Hgt].
    + rewrite N.min_r by lia. replace (ls_limit s - ls_limit s)%N with 0%N
        by lia. cbn. lia.
    + rewrite N.min_l by lia.
      assert (Hdiv : ((ls_limit s + 999) / 1000
                      = (ls_limit s - 1000 + 999) / 1000 + 1)%N).
      { rewrite <- N.div_add by lia. f_equal. lia. }
      lia.
Qed.

(** The invariant holds at the head of every iteration. *)
Lemma iterates_bounded (c c' : LoopState * W) :
  loop.iterates exec g false c c' -> loop.within limit0 (fst c) -> loop.within limit0 (fst c').
Proof.
  induction 1 as [c | s w s' w' c Hcond Hbody _ IH]; intros Hinv;
    [exact Hinv |].
  apply IH. cbn [fst] in *.
  pose proof (@MembersAfter_body_bounded s w Hcond Hinv) as Hb.
  rewrite Hbody in Hb. cbn [snd] in Hb. tauto.
Qed.

End Bounded.

(** The scenario server never hands out more than it was asked for. *)
Lemma source_page_bounded (dflt : uint) (g a : Snowflake) (n : uint)
  (src : list Member) :
  (0 < n)%N ->
  (N.of_nat (length (fst (snd (membersAfter (source.exec dflt) g a n src))))
   <= n)%N.
Proof.
  intros Hpos. rewrite membersAfter_sends.
  unfold source.exec, source.page. cbn [fst snd After Limit].
  destruct (N.eqb_spec (N.min n 1000) 0) as [Hz | _]; [lia |].
  pose proof (firstn_le_length (N.to_nat (N.min n 1000))
                (filter (source.after_cursor a) src)) as Hlen.
  lia.
Qed.

(** C6.  With a limit other than 0, and a server whose pages never hold
    more records than were asked for, [MembersAfter] returns (at most
    [limit / 1000] requests, rounded up, are needed), and what it returns
    holds at most [limit] records.  At the head of every iteration the
    number of records accumulated plus the limit that remains is at most
    the limit of the caller. *)
Theorem MembersAfter_within_limit :
  forall (W : Type) (exec : Snowflake -> MembersParam -> W -> W * Page)
    (g after : Snowflake) (limit : uint) (w : W),
    limit <> 0%N ->
    (forall (a : Snowflake) (n : uint) (w : W),
        (0 < n)%N ->
        (N.of_nat (length (fst (snd (membersAfter exec g a n w)))) <= n)%N) ->
    (forall fuel, (N.to_nat ((limit + 999) / 1000) <= fuel)%nat ->
       exists w' mems err,
         MembersAfter exec fuel g after limit w = (w', Returned (mems, err))
         /\ (N.of_nat (length mems) <= limit)%N)
    /\ (forall fuel w' mems err,
          MembersAfter exec fuel g after limit w
          = (w', Returned (mems, err)) ->
          (N.of_nat (length mems) <= limit)%N)
    /\ (forall s' w',
          loop.iterates exec g false
            ({| ls_after := after; ls_limit := limit; ls_mems := [] |}, w)
            (s', w') ->
          loop.within limit s').
Proof.
  intros W exec g after limit w Hnz Hpage.
  assert (Hinit : loop.within limit
                    {| ls_after := after; ls_limit := limit;
                       ls_mems := [] |})
    by (unfold loop.within; cbn; lia).
  assert (Hbound : forall fuel w' mems err,
             MembersAfter exec fuel g after limit w
             = (w', Returned (mems, err)) ->
             (N.of_nat (length mems) <= limit)%N).
  { intros fuel w' mems err Hrun. unfold MembersAfter in Hrun.
    apply N.eqb_neq in Hnz. rewrite Hnz in Hrun.
    exact (@MembersAfter_for_bounded W exec g limit Hpage fuel _ w _ _ _
             Hinit Hrun). }
  split; [| split].
  - intros fuel Hfuel.
    destruct (@MembersAfter_for_returns W exec g limit Hpage fuel _ w
                Hinit Hfuel)
      as [w' [[mems err] Hrun]].
    assert (Hrun' : MembersAfter exec fuel g after limit w
                    = (w', Returned (mems, err))).
    { unfold MembersAfter. apply N.eqb_neq in Hnz. rewrite Hnz.
      exact Hrun. }
    exists w', mems, err. split; [exact Hrun' | eauto].
  - exact Hbound.
  - intros s' w' Hit.
    exact (@iterates_bounded W exec g limit Hpage _ _ Hit Hinit).
Qed.

Lemma MembersAfter_within_limit_witness :
  exists w' mems err,
    MembersAfter (source.exec 1%N) 1 7%N 0%N 3%N (source.members 5)
    = (w', Returned (mems, err))
    /\ (N.of_nat (length mems) <= 3)%N.
Proof.
  assert (Hnz : 3%N <> 0%N) by discriminate.
  destruct (@MembersAfter_within_limit _ (source.exec 1%N) 7%N 0%N 3%N
              (source.members 5) Hnz
              (fun a n w => @source_page_bounded 1%N 7%N a n w))
    as [Hret _].
  apply (Hret 1%nat). vm_compute. apply le_n.
Defined.

(** ** The requests of a run *)

Section Requests.
Variable W : Type.
Variable exec : Snowflake -> MembersParam -> W -> W * Page.
Variable g : Snowflake.

(** What the next iteration starts from when the body goes on. *)
Lemma MembersAfter_body_continue (s s1 : LoopState) (w w1 : W) :
  MembersAfter_body exec g s w = (w1, Continue s1) ->
  let p := {| After := ls_after s;
              Limit := fst (MembersAfter_fetch (ls_limit s)) |} in
  w1 = fst (exec g p w)
  /\ snd (snd (exec g p w)) = None
  /\ ls_mems s1 = ls_mems s ++ fst (snd (exec g p w))
  /\ ls_limit s1 = snd (MembersAfter_fetch (ls_limit s))
  /\ (hardLimit <= Z.of_nat (length (ls_mems s1)))%Z
  /\ exists x, nth_error (ls_mems s1) (Z.to_nat (hardLimit - 1)) = Some x
               /\ ls_after s1 = ID (MemberUser x).
Proof.
  intros Hbody p. subst p.
  pose proof (MembersAfter_body_cases exec g s w) as Hb. cbv zeta in Hb.
  destruct (snd (snd (exec g _ w))) as [e |].
  - rewrite Hb in Hbody. discriminate Hbody.
  - destruct (Z.ltb_spec (Z.of_nat (length (ls_mems s ++
               fst (snd (exec g {| After := ls_after s;
                                   Limit := fst (MembersAfter_fetch
                                                   (ls_limit s)) |} w)))))
               hardLimit) as [Hlt | Hge].
    + rewrite Hb in Hbody. discriminate Hbody.
    + destruct Hb as [x [Hx Hb]]. rewrite Hb in Hbody.
      injection Hbody as <- <-. cbn [ls_mems ls_limit ls_after].
      repeat split; try assumption. exists x. split; [exact Hx | reflexivity].
Qed.



End Requests.



(** ** The scenario server *)

Lemma ascending_tail (m : Member) (rest : list Member) :
  source.ascending (m :: rest) = true -> source.ascending rest = true.
Proof.
  cbn [source.ascending]. intros H. apply andb_true_iff in H. tauto.
Qed.

(** In an ascending source every later record is after the first one. *)
Lemma ascending_above (m : Member) (rest : list Member) :
  source.ascending (m :: rest) = true ->
  forallb (source.after_cursor (ID (MemberUser m))) rest = true.
Proof.
  revert m. induction rest as [| m' rest IH]; intros m Hasc;
    [reflexivity |].
  cbn [source.ascending] in Hasc. apply andb_true_iff in Hasc.
  destruct Hasc as [Hlt Hrest]. cbn [forallb].
  apply andb_true_iff. split; [exact Hlt |].
  specialize (IH m' Hrest). rewrite forallb_forall in IH |- *.
  intros y Hy. specialize (IH y Hy). unfold source.after_cursor in *.
  apply N.ltb_lt in Hlt, IH. apply N.ltb_lt. lia.
Qed.

(** The records after the one at index [k] are those behind it. *)
Lemma filter_after_nth (src : list Member) :
  source.ascending src = true ->
  forall (k : nat) (x : Member),
    nth_error src k = Some x ->
    filter (source.after_cursor (ID (MemberUser x))) src = skipn (S k) src.
Proof.
  induction src as [| m rest IH]; intros Hasc k x Hnth.
  - destruct k; discriminate Hnth.
  - pose proof (ascending_above _ _ Hasc) as Habove.
    destruct k as [| k]; cbn [nth_error] in Hnth.
    + injection Hnth as <-. cbn [filter skipn].
      unfold source.after_cursor at 1. rewrite N.ltb_irrefl.
      apply forallb_filter_id. exact Habove.
    + cbn [filter]. rewrite forallb_forall in Habove.
      pose proof (Habove x (nth_error_In _ _ Hnth)) as Hlt.
      unfold source.after_cursor in Hlt |- * at 1.
      apply N.ltb_lt in Hlt.
      destruct (N.ltb_spec (ID (MemberUser x)) (ID (MemberUser m)));
        [lia |].
      change (skipn (S (S k)) (m :: rest)) with (skipn (S k) rest).
      apply IH; [exact (ascending_tail _ _ Hasc) | exact Hnth].
Qed.

Lemma skipn_incl (A : Type) (n : nat) (l : list A) (x : A) :
  In x (skipn n l) -> In x l.
Proof.
  intros Hin. rewrite <- (firstn_skipn n l). apply in_or_app. tauto.
Qed.

Lemma firstn_plus (A : Type) (a b : nat) :
  forall l : list A, firstn (a + b) l = firstn a l ++ firstn b (skipn a l).
Proof.
  induction a as [| a IH]; intros l; [reflexivity |].
  destruct l as [| x l]; cbn [Nat.add firstn skipn app].
  - rewrite firstn_nil. reflexivity.
  - rewrite IH. reflexivity.
Qed.

(** The records of a prefix of an ascending source are not in the rest. *)
Lemma ascending_prefix_disjoint (src : list Member) :
  source.ascending src = true ->
  forall (n : nat) (m : Member),
    In m (firstn n src) -> ~ In m (skipn n src).
Proof.
  induction src as [| m0 rest IH]; intros Hasc n m Hin.
  - rewrite firstn_nil in Hin. destruct Hin.
  - destruct n as [| n]; [destruct Hin |].
    cbn [firstn skipn] in *. destruct Hin as [<- | Hin].
    + intros Hlater. apply skipn_incl in Hlater.
      pose proof (ascending_above _ _ Hasc) as Habove.
      rewrite forallb_forall in Habove. specialize (Habove _ Hlater).
      unfold source.after_cursor in Habove.
      rewrite N.ltb_irrefl in Habove. discriminate Habove.
    + apply IH; [exact (ascending_tail _ _ Hasc) | exact Hin].
Qed.

(** One iteration against the scenario server. *)
Lemma source_body (dflt : uint) (g : Snowflake) (s : LoopState)
  (src : list Member) :
  let fetch := fst (MembersAfter_fetch (ls_limit s)) in
  let page :=
    firstn (N.to_nat fetch) (filter (source.after_cursor (ls_after s)) src) in
  let mems := ls_mems s ++ page in
  MembersAfter_body (source.exec dflt) g s src
  = (src,
     if (Z.of_nat (length mems) <? hardLimit)%Z then Break mems
     else match nth_error mems (Z.to_nat (hardLimit - 1)) with
          | Some x => Continue {| ls_after := ID (MemberUser x);
                                  ls_limit := snd (MembersAfter_fetch
                                                     (ls_limit s));
                                  ls_mems := mems |}
          | None => IndexOutOfRange
          end)
  /\ snd (source.exec dflt g {| After := ls_after s; Limit := fetch |} src)
     = (page, None).
Proof.
  intros fetch page mems. subst mems page fetch.
  pose proof (MembersAfter_fetch_range (ls_limit s)) as Hrange.
  unfold MembersAfter_body.
  destruct (MembersAfter_fetch (ls_limit s)) as [fetch limit'].
  cbn [fst snd] in *. rewrite membersAfter_in_range by lia.
  unfold source.exec, source.page. cbn [After Limit snd].
  destruct (N.eqb_spec fetch 0) as [Hz | _]; [lia |].
  split; [| reflexivity].
  destruct (Z.of_nat _ <? hardLimit)%Z; [reflexivity |].
  destruct (nth_error _ _); reflexivity.
Qed.

(** C8.  With limit 1500 and an ascending source of 2000 records after
    the cursor, [MembersAfter] makes exactly two requests, of sizes 1000
    and 500, the second one with the identifier of the 1000th record as
    its cursor; it returns the first 1500 records of the source, and none
    of the 500 records that remain is among them. *)
Theorem MembersAfter_limit_1500_source_2000 :
  forall (dflt : uint) (g after : Snowflake) (src : list Member)
    (fuel : nat),
    source.ascending src = true ->
    forallb (source.after_cursor after) src = true ->
    length src = N.to_nat 2000 ->
    let fetched := firstn (N.to_nat 1500) src in
    let rest := skipn (N.to_nat 1500) src in
    exists x,
      nth_error src (N.to_nat 999) = Some x
      /\ MembersAfter (traced (source.exec dflt)) (S (S fuel)) g after
           1500%N (src, [])
         = ((src,
             [{| call_guild := g;
                 call_param := {| After := after; Limit := 1000%N |};
                 call_page := (firstn (N.to_nat 1000) src, None) |};
              {| call_guild := g;
                 call_param := {| After := ID (MemberUser x);
                                  Limit := 500%N |};
                 call_page :=
                   (firstn (N.to_nat 500) (skipn (N.to_nat 1000) src),
                    None) |}]),
            Returned (fetched, None))
      /\ length fetched = N.to_nat 1500
      /\ length rest = N.to_nat 500
      /\ forall m, In m rest -> ~ In m fetched.
Proof.
  intros dflt g after src fuel Hasc Hafter Hlen fetched rest.
  destruct (nth_error src (N.to_nat 999)) as [x |] eqn:Hx;
    [| apply nth_error_None in Hx; lia].
  exists x. split; [reflexivity |].
  assert (Hlen1 : length (firstn (N.to_nat 1000) src) = N.to_nat 1000)
    by (rewrite length_firstn; lia).
  assert (Hx1 : nth_error (firstn (N.to_nat 1000) src)
                  (Z.to_nat (hardLimit - 1)) = Some x).
  { rewrite nth_error_firstn.
    change (Z.to_nat (hardLimit - 1)) with (N.to_nat 999).
    destruct (Nat.ltb_spec (N.to_nat 999) (N.to_nat 1000)); [exact Hx | lia]. }
  assert (Hsplit : firstn (N.to_nat 1000) src
                   ++ firstn (N.to_nat 500) (skipn (N.to_nat 1000) src)
                   = fetched).
  { subst fetched. rewrite <- firstn_plus. f_equal; lia. }
  split; [| repeat split].
  - unfold MembersAfter. change (1500 =? 0)%N with false.
    (* first iteration *)
    cbn [MembersAfter_for]. unfold MembersAfter_cond at 1. cbn [ls_limit].
    change (0 <? 1500)%N with true. cbn [orb].
    rewrite MembersAfter_body_traced. cbv zeta.
    destruct (source_body dflt g
                {| ls_after := after; ls_limit := 1500%N; ls_mems := [] |}
                src) as [Hbody Hpage].
    cbv zeta in Hbody, Hpage. cbn [ls_after ls_limit ls_mems app] in *.
    change (MembersAfter_fetch 1500%N) with (1000%N, 500%N) in *.
    cbn [fst snd] in Hbody, Hpage |- *.
    rewrite (forallb_filter_id _ _ Hafter) in Hbody, Hpage.
    rewrite Hpage, Hbody. clear Hbody Hpage.
    destruct (Z.ltb_spec (Z.of_nat (length (firstn (N.to_nat 1000) src)))
                hardLimit) as [Hlt | _];
      [unfold hardLimit in Hlt; lia |].
    rewrite Hx1. cbn [fst snd].
    (* second iteration *)
    cbn [MembersAfter_for]. unfold MembersAfter_cond at 1. cbn [ls_limit].
    change (0 <? 500)%N with true. cbn [orb].
    rewrite MembersAfter_body_traced. cbv zeta.
    destruct (source_body dflt g
                {| ls_after := ID (MemberUser x); ls_limit := 500%N;
                   ls_mems := firstn (N.to_nat 1000) src |}
                src) as [Hbody Hpage].
    cbv zeta in Hbody, Hpage. cbn [ls_after ls_limit ls_mems] in *.
    change (MembersAfter_fetch 500%N) with (500%N, 0%N) in *.
    cbn [fst snd] in Hbody, Hpage |- *.
    rewrite (@filter_after_nth src Hasc _ _ Hx) in Hbody, Hpage.
    change (S (N.to_nat 999)) with (N.to_nat 1000) in Hbody, Hpage.
    rewrite Hpage, Hbody. clear Hbody Hpage. rewrite Hsplit.
    assert (Hfetched : length fetched = N.to_nat 1500)
      by (subst fetched; rewrite length_firstn; lia).
    destruct (Z.ltb_spec (Z.of_nat (length fetched)) hardLimit)
      as [Hlt | _]; [unfold hardLimit in Hlt; lia |].
    destruct (nth_error fetched (Z.to_nat (hardLimit - 1))) as [y |] eqn:Hy.
    + cbn [fst snd app].
      (* the limit is used up: the loop ends *)
      destruct fuel; reflexivity.
    + apply nth_error_None in Hy. unfold hardLimit in Hy. lia.
  - subst fetched. rewrite length_firstn. lia.
  - subst rest. rewrite length_skipn. lia.
  - intros m Hrest Hfetched.
    exact (@ascending_prefix_disjoint src Hasc _ _ Hfetched Hrest).
Qed.

Lemma MembersAfter_limit_1500_source_2000_witness :
  snd (MembersAfter (traced (source.exec 1%N)) 2 7%N 0%N 1500%N
         (source.members 2000, []))
  = Returned (firstn (N.to_nat 1500) (source.members 2000), None)
  /\ sizes (snd (fst (MembersAfter (traced (source.exec 1%N)) 2 7%N 0%N
                        1500%N (source.members 2000, []))))
     = [1000%N; 500%N].
Proof.
  assert (Hasc : source.ascending (source.members 2000) = true)
    by (vm_compute; reflexivity).
  assert (Hafter : forallb (source.after_cursor 0%N) (source.members 2000)
                   = true) by (vm_compute; reflexivity).
  assert (Hlen : length (source.members 2000) = N.to_nat 2000)
    by (vm_compute; reflexivity).
  destruct (@MembersAfter_limit_1500_source_2000 1%N 7%N 0%N
              (source.members 2000) 0 Hasc Hafter Hlen)
    as [x [_ [Hrun _]]].
  rewrite Hrun. split; reflexivity.
Defined.

(** ** Unlimited fetches *)

Section Stuck.
Variable W : Type.
Variable exec : Snowflake -> MembersParam -> W -> W * Page.
Variable g : Snowflake.

(** Once 1000 records are accumulated the cursor no longer moves, in any
    run: [mems[hardLimit-1]] is the same record after every page, so every
    later request carries the identifier of the 1000th record. *)
Lemma MembersAfter_for_cursor_fixed (fuel : nat) (unlimited : bool)
  (x : Member) :
  forall (s : LoopState) (w : W) (tr0 : list Call),
    nth_error (ls_mems s) (Z.to_nat (hardLimit - 1)) = Some x ->
    ls_after s = ID (MemberUser x) ->
    exists new,
      snd (fst (MembersAfter_for (traced exec) fuel g unlimited s (w, tr0)))
      = tr0 ++ new
      /\ forall c, In c new -> After (call_param c) = ID (MemberUser x).
Proof.
  induction fuel as [| fuel IH]; intros s w tr0 Hx Hafter;
    cbn [MembersAfter_for];
    destruct (MembersAfter_cond unlimited s);
    try (exists []; rewrite app_nil_r; split; [reflexivity | intros c []]).
  rewrite MembersAfter_body_traced. cbv zeta.
  set (c0 := {| call_guild := g; call_param := _; call_page := _ |}).
  assert (Hc0 : After (call_param c0) = ID (MemberUser x)) by exact Hafter.
  destruct (MembersAfter_body exec g s w) as [w1 [s1 | ms | ms e |]]
    eqn:Hbody; cbn [fst snd];
    try (exists [c0]; split; [reflexivity |];
         intros c [<- | []]; exact Hc0).
  destruct (@MembersAfter_body_continue W exec g s s1 w w1 Hbody)
    as [_ [_ [Hmems [_ [_ [y [Hy Hafter1]]]]]]].
  assert (y = x).
  { rewrite Hmems, nth_error_app1 in Hy; [congruence |].
    apply nth_error_Some. congruence. }
  subst y.
  destruct (IH s1 w1 (tr0 ++ [c0]) Hy Hafter1) as [new [Htr Hnew]].
  exists (c0 :: new). split.
  - rewrite Htr, <- app_assoc. reflexivity.
  - intros c [<- | Hin]; [exact Hc0 | auto].
Qed.

(** Once 1000 records are accumulated, the unlimited loop asks for the
    page after the 1000th record again and again: the cursor does not
    move, the stop check cannot fire, and only a failing request ends the
    loop. *)
Lemma MembersAfter_for_stuck (fuel : nat) (x : Member) :
  forall (s : LoopState) (w : W) (tr0 : list Call),
    ls_limit s = 0%N ->
    nth_error (ls_mems s) (Z.to_nat (hardLimit - 1)) = Some x ->
    ls_after s = ID (MemberUser x) ->
    exists new,
      snd (fst (MembersAfter_for (traced exec) fuel g true s (w, tr0)))
      = tr0 ++ new
      /\ (forall c, In c new ->
            call_param c
            = {| After := ID (MemberUser x); Limit := 1000%N |})
      /\ ((forall c, In c new -> snd (call_page c) = None) ->
          length new = fuel
          /\ snd (MembersAfter_for (traced exec) fuel g true s (w, tr0))
             = OutOfFuel).
Proof.
  induction fuel as [| fuel IH]; intros s w tr0 Hlim Hx Hafter;
    cbn [MembersAfter_for]; unfold MembersAfter_cond;
    rewrite !orb_true_r.
  - exists []. rewrite app_nil_r. repeat split. intros c [].
  - rewrite MembersAfter_body_traced. cbv zeta.
    rewrite Hlim, MembersAfter_fetch_unlimited, Hafter. cbn [fst].
    set (p := {| After := ID (MemberUser x); Limit := 1000%N |}).
    set (c0 := {| call_guild := g; call_param := p;
                  call_page := snd (exec g p w) |}).
    pose proof (MembersAfter_body_cases exec g s w) as Hb. cbv zeta in Hb.
    rewrite Hlim, MembersAfter_fetch_unlimited, Hafter in Hb.
    cbn [fst snd] in Hb. fold p in Hb.
    assert (Hc0 : snd (call_page c0) = snd (snd (exec g p w)))
      by reflexivity.
    destruct (snd (snd (exec g p w))) as [e |].
    + rewrite Hb. cbn [fst snd]. exists [c0]. repeat split.
      * intros c [<- | []]. reflexivity.
      * specialize (H c0 (or_introl eq_refl)). congruence.
      * specialize (H c0 (or_introl eq_refl)). congruence.
    + assert (Hlen : (hardLimit <= Z.of_nat (length (ls_mems s)))%Z).
      { assert (Hsome : nth_error (ls_mems s) (Z.to_nat (hardLimit - 1))
                        <> None) by congruence.
        apply nth_error_Some in Hsome. unfold hardLimit in *. lia. }
      destruct (Z.ltb_spec
                  (Z.of_nat (length (ls_mems s ++ fst (snd (exec g p w)))))
                  hardLimit) as [Hlt | _];
        [rewrite length_app in Hlt; lia |].
      destruct Hb as [y [Hy Hb]]. rewrite Hb. cbn [fst snd].
      assert (y = x).
      { rewrite nth_error_app1 in Hy; [congruence |].
        unfold hardLimit in *. lia. }
      subst y.
      destruct (IH {| ls_after := ID (MemberUser x); ls_limit := 0%N;
                      ls_mems := ls_mems s ++ fst (snd (exec g p w)) |}
                  (fst (exec g p w)) (tr0 ++ [c0]) eq_refl Hy eq_refl)
        as [new [Htr [Hreq Hrun]]].
      exists (c0 :: new). split; [| split].
      * rewrite Htr, <- app_assoc. reflexivity.
      * intros c [<- | Hin]; [reflexivity | auto].
      * intros Hok. destruct Hrun as [Hn Hout].
        { intros c Hin. apply Hok. right. exact Hin. }
        cbn [length]. rewrite Hn. split; [reflexivity | exact Hout].
Qed.

End Stuck.

(** Every answer in the trace of a run against the scenario server is
    the page of the source for the request made; none is an error. *)
Lemma source_for_pages (dflt : uint) (g : Snowflake) (src : list Member)
  (fuel : nat) (unlimited : bool) :
  forall (s : LoopState) (tr0 : list Call),
  exists new,
    snd (fst (MembersAfter_for (traced (source.exec dflt)) fuel g unlimited
                s (src, tr0))) = tr0 ++ new
    /\ forall c, In c new ->
         call_page c = (source.page dflt src (call_param c), None).
Proof.
  induction fuel as [| fuel IH]; intros s tr0; cbn [MembersAfter_for];
    destruct (MembersAfter_cond unlimited s);
    try (exists []; rewrite app_nil_r; split; [reflexivity | intros c []]).
  rewrite MembersAfter_body_traced. cbv zeta.
  set (c0 := {| call_guild := g; call_param := _; call_page := _ |}).
  assert (Hc0 : call_page c0
                = (source.page dflt src (call_param c0), None))
    by reflexivity.
  destruct (source_body dflt g s src) as [Hbody _]. cbv zeta in Hbody.
  destruct (MembersAfter_body (source.exec dflt) g s src)
    as [w1 [s1 | ms | ms e |]] eqn:Hb; cbn [fst snd];
    try (exists [c0]; split; [reflexivity |];
         intros c [<- | []]; exact Hc0).
  injection Hbody as -> _.
  destruct (IH s1 (tr0 ++ [c0])) as [new [Htr Hnew]].
  exists (c0 :: new). split.
  - rewrite Htr, <- app_assoc. reflexivity.
  - intros c [<- | Hin]; [exact Hc0 | auto].
Qed.

(** Against a source with at least 1000 records after the cursor, an
    unlimited [MembersAfter] does not return: whatever fuel it is given is
    used up, one request per unit, and every request after the first asks
    again for the 1000 records after the 1000th one. *)
Lemma MembersAfter_source_unlimited (dflt : uint) (g after : Snowflake)
  (src : list Member) (x : Member) (fuel : nat) :
  nth_error (filter (source.after_cursor after) src)
    (Z.to_nat (hardLimit - 1)) = Some x ->
  let run :=
    MembersAfter (traced (source.exec dflt)) fuel g after 0%N (src, []) in
  let again := {| After := ID (MemberUser x); Limit := 1000%N |} in
  snd run = OutOfFuel
  /\ length (snd (fst run)) = fuel
  /\ forall i c,
      nth_error (snd (fst run)) (S i) = Some c ->
      call_param c = again
      /\ call_page c = (source.page dflt src again, None).
Proof.
  intros Hx run again. subst run. unfold MembersAfter.
  change (0 =? 0)%N with true.
  destruct fuel as [| fuel]; cbn [MembersAfter_for].
  - cbn. split; [reflexivity | split; [reflexivity |]].
    intros i c Hnth. discriminate Hnth.
  - unfold MembersAfter_cond at 1 2 3. rewrite !orb_true_r.
    rewrite MembersAfter_body_traced. cbv zeta.
    destruct (source_body dflt g
                {| ls_after := after; ls_limit := 0%N; ls_mems := [] |} src)
      as [Hbody Hpage].
    cbv zeta in Hbody, Hpage. cbn [ls_after ls_limit ls_mems app] in *.
    rewrite MembersAfter_fetch_unlimited in *. cbn [fst snd] in *.
    set (page1 := firstn (N.to_nat 1000)
                    (filter (source.after_cursor after) src)) in *.
    assert (Hx1 : nth_error page1 (Z.to_nat (hardLimit - 1)) = Some x).
    { subst page1. rewrite nth_error_firstn.
      destruct (Nat.ltb_spec (Z.to_nat (hardLimit - 1)) (N.to_nat 1000))
        as [_ | Hge]; [exact Hx | unfold hardLimit in Hge; lia]. }
    assert (Hlen1 : (hardLimit <= Z.of_nat (length page1))%Z).
    { assert (Hsome : nth_error page1 (Z.to_nat (hardLimit - 1)) <> None)
        by congruence.
      apply nth_error_Some in Hsome. unfold hardLimit in *. lia. }
    destruct (Z.ltb_spec (Z.of_nat (length page1)) hardLimit)
      as [Hlt | _]; [lia |].
    rewrite Hx1 in Hbody. rewrite Hbody, Hpage. cbn [fst snd].
    set (s1 := {| ls_after := ID (MemberUser x); ls_limit := 0%N;
                  ls_mems := page1 |}).
    set (c0 := {| call_guild := g;
                  call_param := {| After := after; Limit := 1000%N |};
                  call_page := (page1, None) |}).
    destruct (@MembersAfter_for_stuck _ (source.exec dflt) g fuel x s1 src
                [c0] eq_refl Hx1 eq_refl) as [new [Htr [Hreq Hrun]]].
    destruct (source_for_pages dflt g src fuel true s1 [c0])
      as [new' [Htr' Hpages]].
    assert (new' = new)
      by (rewrite Htr in Htr'; apply app_inv_head in Htr'; congruence).
    subst new'.
    destruct Hrun as [Hn Hout].
    { intros c Hin. rewrite (Hpages c Hin). reflexivity. }
    rewrite Hout, Htr. cbn [app length]. rewrite Hn.
    split; [reflexivity | split; [reflexivity |]].
    intros i c Hnth. cbn [nth_error] in Hnth.
    apply nth_error_In in Hnth. split.
    + apply Hreq. exact Hnth.
    + rewrite (Hpages c Hnth), (Hreq c Hnth). reflexivity.
Qed.

(** C2.  Source of 1500 records, cursor 0, limit 0.  The call does not
    return after two requests: it never returns.  Whatever fuel it is
    given, it is still running when the fuel is used up, having made one
    request per unit of fuel; the first four requests show the pattern:
    the second page brings the total to 1500, which is not below 1000, so
    the loop goes on, asking again for the records after the 1000th and
    receiving records 1001 to 1500 once more. *)
Theorem MembersAfter_unlimited_1500_runs_on :
  forall fuel : nat,
    let run n := MembersAfter (traced (source.exec 1%N)) n 7%N 0%N 0%N
                   (source.members 1500, []) in
    snd (run fuel) = OutOfFuel
    /\ length (snd (fst (run fuel))) = fuel
    /\ map summary (snd (fst (run 4%nat)))
       = [(0%N, 1000%N, 1000%nat, Some 1000%N);
          (1000%N, 1000%N, 500%nat, Some 1500%N);
          (1000%N, 1000%N, 500%nat, Some 1500%N);
          (1000%N, 1000%N, 500%nat, Some 1500%N)].
Proof.
  intros fuel run. subst run. cbv beta.
  assert (Hx : nth_error (filter (source.after_cursor 0%N)
                            (source.members 1500))
                 (Z.to_nat (hardLimit - 1)) = Some (source.member 1000%N))
    by (vm_compute; reflexivity).
  destruct (MembersAfter_source_unlimited 1%N 7%N 0%N (source.members 1500)
              fuel Hx) as [Hout [Hlen _]].
  split; [exact Hout | split; [exact Hlen |]].
  vm_compute. reflexivity.
Qed.

(** C3.  Source of exactly 1000 records, limit 0.  The second request
    returns no record, but the total is still 1000, not below 1000: the
    loop does not stop there.  It never returns: every further request
    asks for the records after the 1000th and receives none. *)
Theorem MembersAfter_unlimited_1000_runs_on :
  forall fuel : nat,
    let run n := MembersAfter (traced (source.exec 1%N)) n 7%N 0%N 0%N
                   (source.members 1000, []) in
    snd (run fuel) = OutOfFuel
    /\ length (snd (fst (run fuel))) = fuel
    /\ map summary (snd (fst (run 4%nat)))
       = [(0%N, 1000%N, 1000%nat, Some 1000%N);
          (1000%N, 1000%N, 0%nat, None);
          (1000%N, 1000%N, 0%nat, None);
          (1000%N, 1000%N, 0%nat, None)].
Proof.
  intros fuel run. subst run. cbv beta.
  assert (Hx : nth_error (filter (source.after_cursor 0%N)
                            (source.members 1000))
                 (Z.to_nat (hardLimit - 1)) = Some (source.member 1000%N))
    by (vm_compute; reflexivity).
  destruct (MembersAfter_source_unlimited 1%N 7%N 0%N (source.members 1000)
              fuel Hx) as [Hout [Hlen _]].
  split; [exact Hout | split; [exact Hlen |]].
  vm_compute. reflexivity.
Qed.

(** C1.  Source of 2500 records, cursor 0, limit 3000.  After the second
    page, whose last record has identifier 2000, the third request is made
    with cursor 1000, the identifier of the last record of the first page:
    [mems[hardLimit-1]] is the 1000th record accumulated, whatever the
    number of pages.  The call returns 3000 records: records 1 to 2000,
    then records 1001 to 2000 a second time; records 2001 to 2500 are
    never fetched. *)
Theorem MembersAfter_cursor_stays_at_first_page :
  let run := MembersAfter (traced (source.exec 1%N)) 3 7%N 0%N 3000%N
               (source.members 2500, []) in
  let page := firstn 1000 (skipn 1000 (source.members 2500)) in
  map summary (snd (fst run))
  = [(0%N, 1000%N, 1000%nat, Some 1000%N);
     (1000%N, 1000%N, 1000%nat, Some 2000%N);
     (1000%N, 1000%N, 1000%nat, Some 2000%N)]
  /\ snd run
     = Returned (source.members 1000 ++ page ++ page, None).
Proof.
  vm_compute. split; reflexivity.
Qed.

(** ** Ban *)

(** C10.  [Ban] reads through [data.DeleteDays] before anything else.
    With a nil pointer it panics, and no request is made.  With a pointer
    to a cell holding [d], the cell holds [min d 7] afterwards (7 when [d]
    is above 7, [d] itself from 0 to 7), exactly one request is made, with
    that value as its number of days, and the call returns what the
    request returned. *)
Theorem Ban_dereferences_DeleteDays :
  forall (W : Type)
    (exec : BanRequest -> W -> W * Datatypes.option error)
    (g u : Snowflake) (r : option.String) (h : option.Store) (w : W)
    (tr : list BanRequest),
    Ban (traced_ban exec) g u {| DeleteDays := None; Reason := r |} h (w, tr)
    = (h, (w, tr), Panicked)
    /\ forall p : nat,
        let days := N.min (h p) 7 in
        let req := {| ban_guild := g; ban_user := u;
                      delete_message_days := days; reason := r |} in
        let run :=
          Ban (traced_ban exec) g u {| DeleteDays := Some p; Reason := r |}
            h (w, tr) in
        snd run = Returned (snd (exec req w))
        /\ snd (fst run) = (fst (exec req w), tr ++ [req])
        /\ (forall q, fst (fst run) q = if Nat.eqb q p then days else h q)
        /\ days = (if (7 <? h p)%N then 7%N else h p).
Proof.
  intros W exec g u r h w tr. split; [reflexivity |].
  intros p days req run. subst run req days.
  unfold Ban, traced_ban. cbn [DeleteDays Reason].
  set (h' := if (7 <? h p)%N then option.store h p 7%N else h).
  assert (Hh' : forall q,
             h' q = if Nat.eqb q p then N.min (h p) 7 else h q).
  { intros q. subst h'. unfold option.store.
    destruct (N.ltb_spec 7 (h p)) as [Hgt | Hle].
    - rewrite N.min_r by lia. reflexivity.
    - rewrite N.min_l by lia.
      destruct (Nat.eqb_spec q p) as [-> | _]; reflexivity. }
  rewrite (Hh' p), Nat.eqb_refl.
  destruct (exec _ w) as [w' err]. cbn [fst snd].
  split; [reflexivity | split; [reflexivity | split; [exact Hh' |]]].
  destruct (N.ltb_spec 7 (h p)); lia.
Qed.

(** * Further properties of the pagination *)

Section Accounting.
Variable W : Type.
Variable exec : Snowflake -> MembersParam -> W -> W * Page.
Variable g : Snowflake.

(** The bounded loop, whatever the server answers: the requests it makes
    are at most [limit / 1000] rounded up, together they ask for no more
    than the limit, and with that much fuel the loop has returned. *)
Lemma MembersAfter_for_accounting (fuel : nat) :
  forall (s : LoopState) (w : W) (tr0 : list Call),
  exists new,
    snd (fst (MembersAfter_for (traced exec) fuel g false s (w, tr0)))
    = tr0 ++ new
    /\ (N.of_nat (length new) <= (ls_limit s + 999) / 1000)%N
    /\ (asked new <= ls_limit s)%N
    /\ ((N.to_nat ((ls_limit s + 999) / 1000) <= fuel)%nat ->
        exists page,
          snd (MembersAfter_for (traced exec) fuel g false s (w, tr0))
          = Returned page).
Proof.
  assert (Hstop : forall (s : LoopState) (w : W) (tr0 : list Call)
                    (out : Outcome Page) (fuel : nat),
             ((N.to_nat ((ls_limit s + 999) / 1000) <= fuel)%nat ->
              exists page, out = Returned page) ->
             exists new,
               snd (fst (w, tr0, out)) = tr0 ++ new
               /\ (N.of_nat (length new) <= (ls_limit s + 999) / 1000)%N
               /\ (asked new <= ls_limit s)%N
               /\ ((N.to_nat ((ls_limit s + 999) / 1000) <= fuel)%nat ->
                   exists page, snd (w, tr0, out) = Returned page)).
  { intros s w tr0 out n Hout. exists []. rewrite app_nil_r.
    cbn [fst snd length asked sizes map fold_right].
    split; [reflexivity |].
    split; [apply N.le_0_l |]. split; [apply N.le_0_l | exact Hout]. }
  induction fuel as [| fuel IH]; intros s w tr0; cbn [MembersAfter_for];
    destruct (MembersAfter_cond false s) eqn:Hcond;
    try (apply Hstop; intros; eexists; reflexivity);
    unfold MembersAfter_cond in Hcond; rewrite orb_false_r in Hcond;
    apply N.ltb_lt in Hcond;
    assert (Hceil : (1 <= (ls_limit s + 999) / 1000)%N)
      by (apply N.div_le_lower_bound; lia).
  - apply Hstop. intros Hfuel. lia.
  - rewrite MembersAfter_body_traced. cbv zeta.
    rewrite MembersAfter_fetch_bounded by exact Hcond. cbn [fst].
    set (c0 := {| call_guild := g; call_param := _; call_page := _ |}).
    assert (Hone : exists new,
               tr0 ++ [c0] = tr0 ++ new
               /\ (N.of_nat (length new) <= (ls_limit s + 999) / 1000)%N
               /\ (asked new <= ls_limit s)%N).
    { exists [c0]. split; [reflexivity |].
      cbn [length asked sizes map fold_right c0 call_param Limit]. lia. }
    pose proof (@MembersAfter_body_in_range W exec g s w) as Hin.
    destruct (MembersAfter_body exec g s w) as [w1 [s1 | ms | ms e |]]
      eqn:Hbody; cbn [fst snd];
      try (exfalso; apply Hin; reflexivity);
      try (destruct Hone as [new [Htr [Hlen Hasked]]]; exists new;
           split; [exact Htr | split; [exact Hlen | split; [exact Hasked |]]];
           intros _; eexists; reflexivity).
    destruct (@MembersAfter_body_continue W exec g s s1 w w1 Hbody)
      as [_ [_ [_ [Hlim _]]]].
    rewrite MembersAfter_fetch_bounded in Hlim by exact Hcond.
    cbn [snd] in Hlim.
    destruct (IH s1 w1 (tr0 ++ [c0])) as [new [Htr [Hlen [Hasked Hret]]]].
    assert (Hdiv : (N.min 1000 (ls_limit s) = 1000 ->
                    (ls_limit s + 999) / 1000
                    = (ls_limit s - 1000 + 999) / 1000 + 1)%N).
    { intros Hmin. rewrite <- N.div_add by lia. f_equal. lia. }
    assert (Hzero : (N.min 1000 (ls_limit s) <> 1000 -> ls_limit s1 = 0)%N)
      by lia.
    assert (Hstep : ((ls_limit s1 + 999) / 1000 + 1
                     <= (ls_limit s + 999) / 1000)%N).
    { destruct (N.eq_dec (N.min 1000 (ls_limit s)) 1000) as [Hmin | Hmin].
      - rewrite (Hdiv Hmin), Hlim, Hmin. lia.
      - rewrite (Hzero Hmin). cbn. lia. }
    exists (c0 :: new). split; [| split; [| split]].
    + rewrite Htr, <- app_assoc. reflexivity.
    + cbn [length]. lia.
    + unfold asked, sizes in *. cbn [map fold_right c0 call_param Limit].
      lia.
    + intros Hfuel. apply Hret. lia.
Qed.

(** What a run hands back when it ends without an error is what the
    server handed out, page after page; every request goes to the guild
    of the caller, the first one with the cursor of the caller. *)
Lemma MembersAfter_for_pages (fuel : nat) (unlimited : bool) :
  forall (s : LoopState) (w : W) (tr0 : list Call),
  exists new,
    snd (fst (MembersAfter_for (traced exec) fuel g unlimited s (w, tr0)))
    = tr0 ++ new
    /\ Forall (fun c => call_guild c = g) new
    /\ match new with
       | [] => True
       | c :: _ => After (call_param c) = ls_after s
       end
    /\ forall mems,
        snd (MembersAfter_for (traced exec) fuel g unlimited s (w, tr0))
        = Returned (mems, None) ->
        mems = ls_mems s ++ records new.
Proof.
  induction fuel as [| fuel IH]; intros s w tr0; cbn [MembersAfter_for];
    destruct (MembersAfter_cond unlimited s);
    try (exists []; rewrite app_nil_r; repeat split;
         [constructor
         | intros mems Hrun; try discriminate Hrun;
           injection Hrun as <-; symmetry; apply app_nil_r]).
  rewrite MembersAfter_body_traced. cbv zeta.
  set (c0 := {| call_guild := g; call_param := _; call_page := _ |}).
  pose proof (MembersAfter_body_cases exec g s w) as Hb. cbv zeta in Hb.
  assert (Hc0 : fst (call_page c0)
                = fst (snd (exec g {| After := ls_after s;
                                      Limit := fst (MembersAfter_fetch
                                                      (ls_limit s)) |} w)))
    by reflexivity.
  destruct (snd (snd (exec g _ w))) as [e |].
  - rewrite Hb. cbn [fst snd]. exists [c0]. repeat split.
    + repeat constructor.
    + intros mems Hrun. discriminate Hrun.
  - destruct (Z.of_nat _ <? hardLimit)%Z.
    + rewrite Hb. cbn [fst snd]. exists [c0]. repeat split.
      * repeat constructor.
      * intros mems Hrun. injection Hrun as <-.
        unfold records. cbn [map concat]. rewrite Hc0, app_nil_r.
        reflexivity.
    + destruct Hb as [x [_ Hb]]. rewrite Hb. cbn [fst snd].
      destruct (IH {| ls_after := ID (MemberUser x);
                      ls_limit := snd (MembersAfter_fetch (ls_limit s));
                      ls_mems := ls_mems s ++ fst (call_page c0) |}
                  (fst (exec g {| After := ls_after s;
                                  Limit := fst (MembersAfter_fetch
                                                  (ls_limit s)) |} w))
                  (tr0 ++ [c0])) as [new [Htr [Hg [_ Hmems]]]].
      rewrite Hc0 in Htr, Hmems.
      exists (c0 :: new). repeat split.
      * rewrite Htr, <- app_assoc. reflexivity.
      * constructor; [reflexivity | exact Hg].
      * intros mems Hrun. rewrite (Hmems mems Hrun).
        cbn [ls_mems]. unfold records. cbn [map concat].
        rewrite Hc0, <- app_assoc. reflexivity.
Qed.

(** With 1000 records accumulated, the unlimited loop cannot end without
    an error: the stop check looks at the total, which only grows. *)
Lemma MembersAfter_for_no_success (fuel : nat) :
  forall (s : LoopState) (w : W) (mems : list Member),
    (hardLimit <= Z.of_nat (length (ls_mems s)))%Z ->
    snd (MembersAfter_for exec fuel g true s w) <> Returned (mems, None).
Proof.
  induction fuel as [| fuel IH]; intros s w mems Hlen;
    cbn [MembersAfter_for]; unfold MembersAfter_cond;
    rewrite orb_true_r; [discriminate |].
  pose proof (MembersAfter_body_cases exec g s w) as Hb. cbv zeta in Hb.
  destruct (snd (snd (exec g _ w))) as [e |].
  - rewrite Hb. discriminate.
  - destruct (Z.ltb_spec
                (Z.of_nat (length (ls_mems s ++ fst (snd (exec g
                   {| After := ls_after s;
                      Limit := fst (MembersAfter_fetch (ls_limit s)) |}
                   w))))) hardLimit) as [Hlt | Hge].
    + rewrite length_app in Hlt. lia.
    + destruct Hb as [x [_ Hb]]. rewrite Hb. apply IH. exact Hge.
Qed.

End Accounting.

(** X1.  [MembersAfter] and [Members] never panic: whatever the server
    answers, the index [hardLimit-1] is within the accumulated records
    whenever [mems[hardLimit-1]] is evaluated. *)
Theorem MembersAfter_never_panics :
  forall (W : Type) (exec : Snowflake -> MembersParam -> W -> W * Page)
    (fuel : nat) (g after : Snowflake) (limit : uint) (w : W),
    snd (MembersAfter exec fuel g after limit w) <> Panicked
    /\ snd (Members exec fuel g limit w) <> Panicked
    /\ forall (s : LoopState),
        snd (MembersAfter_body exec g s w) <> IndexOutOfRange.
Proof.
  intros W exec fuel g after limit w. unfold Members, MembersAfter.
  split; [| split].
  - apply MembersAfter_for_no_panic.
  - apply MembersAfter_for_no_panic.
  - intros s. apply MembersAfter_body_in_range.
Qed.

(** X2.  With a limit other than 0 the call ends whatever the server
    answers: it makes at most [limit / 1000] requests, rounded up, and
    with fuel for that many iterations it has returned. *)
Theorem MembersAfter_bounded_terminates :
  forall (W : Type) (exec : Snowflake -> MembersParam -> W -> W * Page)
    (g after : Snowflake) (limit : uint) (w : W),
    limit <> 0%N ->
    (forall fuel,
        (N.of_nat (length (snd (fst (MembersAfter (traced exec) fuel g after
                                       limit (w, [])))))
         <= (limit + 999) / 1000)%N)
    /\ (forall fuel,
          (N.to_nat ((limit + 999) / 1000) <= fuel)%nat ->
          exists page,
            snd (MembersAfter exec fuel g after limit w) = Returned page).
Proof.
  intros W exec g after limit w Hnz. apply N.eqb_neq in Hnz.
  unfold MembersAfter. rewrite Hnz. split; intros fuel.
  - destruct (@MembersAfter_for_accounting W exec g fuel
                {| ls_after := after; ls_limit := limit; ls_mems := [] |}
                w []) as [new [Htr [Hlen _]]].
    cbn [app] in Htr. rewrite Htr. exact Hlen.
  - intros Hfuel.
    destruct (@MembersAfter_for_accounting W exec g fuel
                {| ls_after := after; ls_limit := limit; ls_mems := [] |}
                w []) as [new [_ [_ [_ Hret]]]].
    destruct (Hret Hfuel) as [page Hpage]. exists page.
    rewrite <- Hpage. symmetry. apply MembersAfter_for_traced.
Qed.

Lemma MembersAfter_bounded_terminates_witness :
  (N.of_nat (length (snd (fst (MembersAfter (traced (source.exec 1%N)) 5 7%N
                                 0%N 1200%N (source.members 5, [])))))
   <= (1200 + 999) / 1000)%N
  /\ exists page,
      snd (MembersAfter (source.exec 1%N) 2 7%N 0%N 1200%N
             (source.members 5)) = Returned page.
Proof.
  assert (Hnz : 1200%N <> 0%N) by discriminate.
  destruct (@MembersAfter_bounded_terminates _ (source.exec 1%N) 7%N 0%N
              1200%N (source.members 5) Hnz) as [Hcount Hret].
  split; [apply Hcount |]. apply Hret. vm_compute. apply le_n.
Defined.

(** X3.  With a limit other than 0, the sizes of all the requests of a
    call add up to at most the limit, whatever the server answers and
    however far the loop has run. *)
Theorem MembersAfter_asks_within_limit :
  forall (W : Type) (exec : Snowflake -> MembersParam -> W -> W * Page)
    (fuel : nat) (g after : Snowflake) (limit : uint) (w : W),
    limit <> 0%N ->
    (asked (snd (fst (MembersAfter (traced exec) fuel g after limit
                        (w, [])))) <= limit)%N.
Proof.
  intros W exec fuel g after limit w Hnz. apply N.eqb_neq in Hnz.
  unfold MembersAfter. rewrite Hnz.
  destruct (@MembersAfter_for_accounting W exec g fuel
              {| ls_after := after; ls_limit := limit; ls_mems := [] |}
              w []) as [new [Htr [_ [Hasked _]]]].
  cbn [app] in Htr. rewrite Htr. exact Hasked.
Qed.

Lemma MembersAfter_asks_within_limit_witness :
  (asked (snd (fst (MembersAfter (traced (source.exec 1%N)) 5 7%N 0%N
                      2500%N (source.members 3000, [])))) <= 2500)%N.
Proof.
  apply MembersAfter_asks_within_limit. discriminate.
Defined.

(** X4.  When a call returns without an error, the records it returns
    are the pages the server handed out, one after the other in the
    order of the requests: nothing is dropped, added or reordered. *)
Theorem MembersAfter_returns_pages_in_order :
  forall (W : Type) (exec : Snowflake -> MembersParam -> W -> W * Page)
    (fuel : nat) (g after : Snowflake) (limit : uint) (w : W)
    (mems : list Member),
    snd (MembersAfter (traced exec) fuel g after limit (w, []))
    = Returned (mems, None) ->
    mems = records (snd (fst (MembersAfter (traced exec) fuel g after limit
                                (w, [])))).
Proof.
  intros W exec fuel g after limit w mems Hrun. unfold MembersAfter in *.
  destruct (@MembersAfter_for_pages W exec g fuel (limit =? 0)%N
              {| ls_after := after; ls_limit := limit; ls_mems := [] |}
              w []) as [new [Htr [_ [_ Hmems]]]].
  cbn [app] in Htr. rewrite Htr. exact (Hmems mems Hrun).
Qed.

Lemma MembersAfter_returns_pages_in_order_witness :
  firstn (N.to_nat 1500) (source.members 2000)
  = records (snd (fst (MembersAfter (traced (source.exec 1%N)) 2 7%N 0%N
                         1500%N (source.members 2000, [])))).
Proof.
  apply MembersAfter_returns_pages_in_order. vm_compute. reflexivity.
Defined.

(** X5.  Every request of a call goes to the guild the caller named, and
    the first request carries the cursor of the caller; for [Members]
    that cursor is 0. *)
Theorem MembersAfter_requests_guild_and_cursor :
  forall (W : Type) (exec : Snowflake -> MembersParam -> W -> W * Page)
    (fuel : nat) (g after : Snowflake) (limit : uint) (w : W),
    let tr := snd (fst (MembersAfter (traced exec) fuel g after limit
                          (w, []))) in
    let tr0 := snd (fst (Members (traced exec) fuel g limit (w, []))) in
    Forall (fun c => call_guild c = g) tr
    /\ match tr with
       | [] => True
       | c :: _ => After (call_param c) = after
       end
    /\ Forall (fun c => call_guild c = g) tr0
    /\ match tr0 with
       | [] => True
       | c :: _ => After (call_param c) = 0%N
       end.
Proof.
  intros W exec fuel g after limit w tr tr0. subst tr tr0.
  unfold Members, MembersAfter.
  destruct (@MembersAfter_for_pages W exec g fuel (limit =? 0)%N
              {| ls_after := after; ls_limit := limit; ls_mems := [] |}
              w []) as [new [Htr [Hg [Hfirst _]]]].
  destruct (@MembersAfter_for_pages W exec g fuel (limit =? 0)%N
              {| ls_after := 0%N; ls_limit := limit; ls_mems := [] |}
              w []) as [new0 [Htr0 [Hg0 [Hfirst0 _]]]].
  cbn [app] in Htr, Htr0. rewrite Htr, Htr0. auto.
Qed.

(** X6.  A call with limit 0 that returns without an error has made
    exactly one request and returns its page, which holds fewer than 1000
    records: no unlimited call ever returns 1000 records or more. *)
Theorem MembersAfter_unlimited_success_is_one_short_page :
  forall (W : Type) (exec : Snowflake -> MembersParam -> W -> W * Page)
    (fuel : nat) (g after : Snowflake) (w : W) (mems : list Member),
    snd (MembersAfter (traced exec) fuel g after 0%N (w, []))
    = Returned (mems, None) ->
    snd (fst (MembersAfter (traced exec) fuel g after 0%N (w, [])))
    = [{| call_guild := g;
          call_param := {| After := after; Limit := 1000%N |};
          call_page := (mems, None) |}]
    /\ (Z.of_nat (length mems) < hardLimit)%Z.
Proof.
  intros W exec fuel g after w mems. unfold MembersAfter.
  change (0 =? 0)%N with true.
  destruct fuel as [| fuel]; cbn [MembersAfter_for];
    unfold MembersAfter_cond at 1 2; rewrite !orb_true_r;
    [discriminate |].
  rewrite MembersAfter_body_traced. cbv zeta.
  cbn [ls_after ls_limit]. rewrite MembersAfter_fetch_unlimited. cbn [fst].
  pose proof (MembersAfter_body_cases exec g
                {| ls_after := after; ls_limit := 0%N; ls_mems := [] |} w)
    as Hb.
  cbv zeta in Hb. cbn [ls_after ls_limit ls_mems app] in Hb.
  rewrite MembersAfter_fetch_unlimited in Hb. cbn [fst snd] in Hb.
  destruct (exec g {| After := after; Limit := 1000%N |} w)
    as [w1 [m [e |]]]; cbn [fst snd] in *.
  - rewrite Hb. cbn [fst snd]. discriminate.
  - destruct (Z.ltb_spec (Z.of_nat (length m)) hardLimit) as [Hlt | Hge].
    + rewrite Hb. cbn [fst snd]. intros Hrun. injection Hrun as <-.
      split; [reflexivity | exact Hlt].
    + destruct Hb as [x [_ Hb]]. rewrite Hb. cbn [fst snd]. intros Hrun.
      exfalso. revert Hrun.
      apply MembersAfter_for_no_success. cbn [ls_mems]. exact Hge.
Qed.

Lemma MembersAfter_unlimited_success_is_one_short_page_witness :
  snd (fst (MembersAfter (traced (source.exec 1%N)) 3 7%N 0%N 0%N
              (source.members 3, [])))
  = [{| call_guild := 7%N;
        call_param := {| After := 0%N; Limit := 1000%N |};
        call_page := (source.members 3, None) |}]
  /\ (Z.of_nat (length (source.members 3)) < hardLimit)%Z.
Proof.
  apply MembersAfter_unlimited_success_is_one_short_page.
  vm_compute. reflexivity.
Defined.

(** ** Small and medium sources *)

Lemma ascending_cons (m : Member) (l : list Member) :
  forallb (source.after_cursor (ID (MemberUser m))) l = true ->
  source.ascending l = true ->
  source.ascending (m :: l) = true.
Proof.
  intros Habove Hasc. destruct l as [| m' l]; [reflexivity |].
  cbn [source.ascending] in *. cbn [forallb] in Habove.
  apply andb_true_iff in Habove. destruct Habove as [Hlt _].
  unfold source.after_cursor in Hlt. rewrite Hlt. exact Hasc.
Qed.

(** Leaving records out of an ascending source keeps it ascending. *)
Lemma ascending_filter (f : Member -> bool) (src : list Member) :
  source.ascending src = true -> source.ascending (filter f src) = true.
Proof.
  induction src as [| m rest IH]; intros Hasc; [reflexivity |].
  pose proof (ascending_above _ _ Hasc) as Habove.
  specialize (IH (ascending_tail _ _ Hasc)). cbn [filter].
  destruct (f m); [| exact IH].
  apply ascending_cons; [| exact IH].
  rewrite forallb_forall in Habove |- *.
  intros y Hy. apply filter_In in Hy. apply Habove. tauto.
Qed.

(** The page after the record at index [k] of the records after the
    cursor starts right behind that record. *)
Lemma source_next_page (after : Snowflake) (src : list Member) (k : nat)
  (x : Member) :
  source.ascending src = true ->
  nth_error (filter (source.after_cursor after) src) k = Some x ->
  filter (source.after_cursor (ID (MemberUser x))) src
  = skipn (S k) (filter (source.after_cursor after) src).
Proof.
  intros Hasc Hx.
  rewrite <- (@filter_after_nth (filter (source.after_cursor after) src)
                (ascending_filter _ src Hasc) k x Hx).
  assert (Hgt : source.after_cursor after x = true).
  { apply nth_error_In in Hx. apply filter_In in Hx. tauto. }
  clear Hx Hasc. induction src as [| m rest IH]; [reflexivity |].
  cbn [filter].
  destruct (source.after_cursor after m) eqn:Hm; cbn [filter];
    destruct (source.after_cursor (ID (MemberUser x)) m) eqn:Hxm;
    rewrite IH; try reflexivity.
  unfold source.after_cursor in *.
  apply N.ltb_lt in Hgt, Hxm. apply N.ltb_ge in Hm. lia.
Qed.

(** X7.  When the source holds fewer than 1000 records after the cursor,
    a call with limit 0 returns exactly those records, in the order of
    the source, after a single request of size 1000. *)
Theorem MembersAfter_small_source_complete :
  forall (dflt : uint) (g after : Snowflake) (src : list Member)
    (fuel : nat),
    let avail := filter (source.after_cursor after) src in
    (Z.of_nat (length avail) < hardLimit)%Z ->
    MembersAfter (traced (source.exec dflt)) (S fuel) g after 0%N (src, [])
    = ((src,
        [{| call_guild := g;
            call_param := {| After := after; Limit := 1000%N |};
            call_page := (avail, None) |}]),
       Returned (avail, None)).
Proof.
  intros dflt g after src fuel avail Hlen. unfold MembersAfter.
  change (0 =? 0)%N with true. cbn [MembersAfter_for].
  unfold MembersAfter_cond. rewrite orb_true_r.
  rewrite MembersAfter_body_traced. cbv zeta.
  destruct (source_body dflt g
              {| ls_after := after; ls_limit := 0%N; ls_mems := [] |} src)
    as [Hbody Hpage].
  cbv zeta in Hbody, Hpage. cbn [ls_after ls_limit ls_mems app] in *.
  rewrite MembersAfter_fetch_unlimited in *. cbn [fst snd] in *.
  fold avail in Hbody, Hpage.
  assert (Hall : firstn (N.to_nat 1000) avail = avail)
    by (apply firstn_all2; unfold hardLimit in Hlen; lia).
  rewrite Hall in Hbody, Hpage. rewrite Hpage, Hbody.
  apply Z.ltb_lt in Hlen. rewrite Hlen. reflexivity.
Qed.

Lemma MembersAfter_small_source_complete_witness :
  MembersAfter (traced (source.exec 1%N)) 1 7%N 2%N 0%N
    (source.members 5, [])
  = ((source.members 5,
      [{| call_guild := 7%N;
          call_param := {| After := 2%N; Limit := 1000%N |};
          call_page :=
            (filter (source.after_cursor 2%N) (source.members 5), None) |}]),
     Returned (filter (source.after_cursor 2%N) (source.members 5), None)).
Proof.
  apply (MembersAfter_small_source_complete 1%N 7%N 2%N (source.members 5)
           0).
  reflexivity.
Defined.

(** X8.  Against an ascending source, a call with a limit from 1 to 2000
    returns the first [limit] records after the cursor (all of them when
    there are fewer), each once and in order, and makes at most two
    requests.  (Beyond 2000 the third request repeats the second.) *)
Theorem MembersAfter_correct_up_to_2000 :
  forall (dflt : uint) (g after : Snowflake) (src : list Member)
    (limit : uint) (fuel : nat),
    source.ascending src = true ->
    (0 < limit <= 2000)%N ->
    let avail := filter (source.after_cursor after) src in
    let run := MembersAfter (traced (source.exec dflt)) (S (S fuel)) g after
                 limit (src, []) in
    snd run = Returned (firstn (N.to_nat limit) avail, None)
    /\ (length (snd (fst run)) <= 2)%nat.
Proof.
  intros dflt g after src limit fuel Hasc Hlim avail run. subst run.
  cut (exists tr,
          MembersAfter (traced (source.exec dflt)) (S (S fuel)) g after
            limit (src, [])
          = ((src, tr), Returned (firstn (N.to_nat limit) avail, None))
          /\ (length tr <= 2)%nat).
  { intros [tr [-> Hlen]]. split; [reflexivity | exact Hlen]. }
  unfold MembersAfter.
  destruct (N.eqb_spec limit 0) as [Hz | _]; [lia |].
  (* first iteration *)
  cbn [MembersAfter_for]. unfold MembersAfter_cond at 1. cbn [ls_limit].
  destruct (N.ltb_spec 0 limit) as [_ | Hle]; [| lia]. cbn [orb].
  rewrite MembersAfter_body_traced. cbv zeta.
  destruct (source_body dflt g
              {| ls_after := after; ls_limit := limit; ls_mems := [] |} src)
    as [Hbody Hpage].
  cbv zeta in Hbody, Hpage. cbn [ls_after ls_limit ls_mems app] in *.
  rewrite MembersAfter_fetch_bounded in * by lia. cbn [fst snd] in *.
  fold avail in Hbody, Hpage.
  set (page1 := firstn (N.to_nat (N.min 1000 limit)) avail) in *.
  assert (Hlen1 : length page1
                  = Nat.min (N.to_nat (N.min 1000 limit)) (length avail))
    by apply length_firstn.
  rewrite Hpage, Hbody. clear Hbody Hpage.
  destruct (Z.ltb_spec (Z.of_nat (length page1)) hardLimit) as [Hlt | Hge];
    unfold hardLimit in *.
  - (* the first page is short: break *)
    cbn [fst snd].
    assert (Hres : page1 = firstn (N.to_nat limit) avail).
    { subst page1. destruct (N.le_gt_cases limit 1000) as [Hsmall | Hbig].
      - rewrite N.min_r by lia. reflexivity.
      - rewrite !firstn_all2 by lia. reflexivity. }
    rewrite <- Hres. eexists. split; [reflexivity |]. cbn [length]. lia.
  - (* the first page is full *)
    assert (Hmin : N.min 1000 limit = 1000%N) by lia.
    destruct (nth_error page1 (Z.to_nat (1000 - 1))) as [x |] eqn:Hx;
      [| apply nth_error_None in Hx; lia].
    cbn [fst snd]. rewrite Hmin.
    assert (Hx' : nth_error avail (N.to_nat 999) = Some x).
    { subst page1. rewrite nth_error_firstn in Hx.
      destruct (Nat.ltb_spec (Z.to_nat (1000 - 1))
                  (N.to_nat (N.min 1000 limit))); [exact Hx | discriminate]. }
    (* second iteration *)
    cbn [MembersAfter_for]. unfold MembersAfter_cond at 1.
    cbn [ls_limit ls_mems]. rewrite orb_false_r.
    destruct (N.ltb_spec 0 (limit - 1000)) as [Hmore | Hdone].
    + rewrite MembersAfter_body_traced. cbv zeta.
      destruct (source_body dflt g
                  {| ls_after := ID (MemberUser x);
                     ls_limit := (limit - 1000)%N; ls_mems := page1 |} src)
        as [Hbody Hpage].
      cbv zeta in Hbody, Hpage. cbn [ls_after ls_limit ls_mems] in *.
      rewrite MembersAfter_fetch_bounded in * by lia. cbn [fst snd] in *.
      replace (N.min 1000 (limit - 1000)) with (limit - 1000)%N in * by lia.
      rewrite (source_next_page after src _ Hasc Hx') in Hbody, Hpage.
      fold avail in Hbody, Hpage.
      change (S (N.to_nat 999)) with (N.to_nat 1000) in Hbody, Hpage.
      assert (Hjoin : page1 ++ firstn (N.to_nat (limit - 1000))
                                 (skipn (N.to_nat 1000) avail)
                      = firstn (N.to_nat limit) avail).
      { subst page1. rewrite Hmin, <- firstn_plus. f_equal. lia. }
      rewrite Hjoin in Hbody. rewrite Hpage, Hbody. clear Hbody Hpage.
      assert (Hlen2 : (1000 <= Z.of_nat (length (firstn (N.to_nat limit)
                                                   avail)))%Z).
      { rewrite <- Hjoin, length_app. lia. }
      destruct (Z.ltb_spec (Z.of_nat (length (firstn (N.to_nat limit) avail)))
                  hardLimit) as [Hlt | _]; [unfold hardLimit in Hlt; lia |].
      destruct (nth_error (firstn (N.to_nat limit) avail)
                  (Z.to_nat (hardLimit - 1))) as [y |] eqn:Hy;
        [| apply nth_error_None in Hy; unfold hardLimit in Hy; lia].
      cbn [fst snd].
      replace (limit - 1000 - (limit - 1000))%N with 0%N by lia.
      destruct fuel; cbn [MembersAfter_for MembersAfter_cond ls_limit ls_mems];
        cbn [N.ltb N.compare orb fst snd app];
        (eexists; split; [reflexivity | cbn [length]; lia]).
    + (* the limit was 1000: the loop ends *)
      cbn [fst snd app].
      assert (Hres : page1 = firstn (N.to_nat limit) avail).
      { subst page1. rewrite Hmin. f_equal. lia. }
      rewrite <- Hres. eexists. split; [reflexivity |]. cbn [length]. lia.
Qed.

Lemma MembersAfter_correct_up_to_2000_witness :
  snd (MembersAfter (traced (source.exec 1%N)) 2 7%N 100%N 1200%N
         (source.members 1500, []))
  = Returned (firstn (N.to_nat 1200)
                (filter (source.after_cursor 100%N) (source.members 1500)),
              None)
  /\ (length (snd (fst (MembersAfter (traced (source.exec 1%N)) 2 7%N 100%N
                          1200%N (source.members 1500, [])))) <= 2)%nat.
Proof.
  assert (Hasc : source.ascending (source.members 1500) = true)
    by (vm_compute; reflexivity).
  assert (Hlim : (0 < 1200 <= 2000)%N) by lia.
  exact (@MembersAfter_correct_up_to_2000 1%N 7%N 100%N
           (source.members 1500) 1200%N 0 Hasc Hlim).
Defined.

(** * Pruning *)

(** X9.  [PruneCount], [Prune] and [PruneWithCount] each make exactly one
    request, to the prune URL of the guild, and never send [days=0]: a
    [days] argument of 0 is sent as 7, any other as it is, so a call with
    0 is the same call as one with 7.  [PruneCount] is a GET that carries
    no [compute_prune_count]; [Prune] is a POST with
    [compute_prune_count=false], [PruneWithCount] the same POST with
    [compute_prune_count=true]. *)
Theorem Prune_days_default :
  forall (W : Type) (EndpointGuilds : string)
    (SnowflakeString : Snowflake -> string)
    (json : prune.Request -> W -> W * (uint * Datatypes.option error))
    (fast : prune.Request -> W -> W * Datatypes.option error)
    (g : Snowflake) (days : uint) (w : W),
    let count := prune.PruneCount EndpointGuilds SnowflakeString
                   (prune.traced_json json) in
    let prune := prune.Prune EndpointGuilds SnowflakeString
                   (prune.traced_fast fast) in
    let with_count := prune.PruneWithCount EndpointGuilds SnowflakeString
                        (prune.traced_json json) in
    let sent := if (days =? 0)%N then 7%N else days in
    let url := prune.prune_url EndpointGuilds SnowflakeString g in
    exists r1 r2 r3,
      (1 <= sent)%N
      /\ snd (fst (count g days (w, []))) = [r1]
      /\ snd (fst (prune g days (w, []))) = [r2]
      /\ snd (fst (with_count g days (w, []))) = [r3]
      /\ prune.method r1 = "GET"%string
      /\ prune.method r2 = "POST"%string
      /\ prune.method r3 = "POST"%string
      /\ prune.url r1 = url /\ prune.url r2 = url /\ prune.url r3 = url
      /\ prune.lookup "days" (prune.schema r1) = Some (prune.Uint sent)
      /\ prune.lookup "days" (prune.schema r2) = Some (prune.Uint sent)
      /\ prune.lookup "days" (prune.schema r3) = Some (prune.Uint sent)
      /\ prune.lookup "compute_prune_count" (prune.schema r1) = None
      /\ prune.lookup "compute_prune_count" (prune.schema r2)
         = Some (prune.Bool false)
      /\ prune.lookup "compute_prune_count" (prune.schema r3)
         = Some (prune.Bool true)
      /\ count g 0%N (w, []) = count g 7%N (w, [])
      /\ prune g 0%N (w, []) = prune g 7%N (w, [])
      /\ with_count g 0%N (w, []) = with_count g 7%N (w, []).
Proof.
  intros W EndpointGuilds SnowflakeString json fast g days w
    count prune with_count sent url.
  subst count prune with_count.
  unfold prune.PruneCount, prune.Prune, prune.PruneWithCount,
    prune.traced_json, prune.traced_fast.
  assert (Hpos : (1 <= sent)%N).
  { subst sent. destruct (N.eqb_spec days 0) as [-> | Hnz]; lia. }
  fold sent.
  change (0 =? 0)%N with true. change (7 =? 0)%N with false. cbv iota.
  do 3 eexists. split; [exact Hpos |].
  repeat match goal with
         | |- context [json ?r w] => destruct (json r w) as [? [? ?]]
         | |- context [fast ?r w] => destruct (fast r w) as [? ?]
         end.
  cbn [fst snd app].
  repeat (split; [reflexivity |]). reflexivity.
Qed.

(** * Ban and the variable of the caller *)

(** X10.  [Ban] writes the clamped number of days into the variable that
    [data.DeleteDays] points to, before the request and whatever the
    request returns.  A second [Ban] with the same data therefore sends
    the same number of days and leaves the variable as it is. *)
Theorem Ban_clamp_stays_with_caller :
  forall (W : Type)
    (exec : BanRequest -> W -> W * Datatypes.option error)
    (g u : Snowflake) (r : option.String) (h : option.Store) (w : W)
    (p : nat),
    let data := {| DeleteDays := Some p; Reason := r |} in
    let run1 := Ban (traced_ban exec) g u data h (w, []) in
    let h1 := fst (fst run1) in
    let run2 := Ban (traced_ban exec) g u data h1 (snd (fst run1)) in
    let req := {| ban_guild := g; ban_user := u;
                  delete_message_days := N.min (h p) 7; reason := r |} in
    h1 p = N.min (h p) 7
    /\ snd (snd (fst run1)) = [req]
    /\ snd (snd (fst run2)) = [req; req]
    /\ forall q, fst (fst run2) q = h1 q.
Proof.
  intros W exec g u r h w p data run1 h1 run2 req.
  assert (Hmin : (if (7 <? h p)%N then option.store h p 7%N else h) p
                 = N.min (h p) 7).
  { unfold option.store. destruct (N.ltb_spec 7 (h p)).
    - rewrite Nat.eqb_refl. lia.
    - lia. }
  assert (Hrun1 : run1
                  = (if (7 <? h p)%N then option.store h p 7%N else h,
                     (fst (exec req w), [req]), Returned (snd (exec req w)))).
  { subst run1 data. unfold Ban, traced_ban. cbn [DeleteDays Reason].
    rewrite Hmin. fold req. destruct (exec req w); reflexivity. }
  assert (Hh1 : h1 p = N.min (h p) 7).
  { subst h1. rewrite Hrun1. cbn [fst]. exact Hmin. }
  assert (Hkeep : (7 <? h1 p)%N = false).
  { rewrite Hh1. apply N.ltb_ge. lia. }
  assert (Hrun2 : run2
                  = (h1, (fst (exec req (fst (exec req w))), [req; req]),
                     Returned (snd (exec req (fst (exec req w)))))).
  { subst run2 data. unfold Ban. cbn [DeleteDays Reason].
    rewrite Hkeep, Hh1. fold req. rewrite Hrun1. cbn [fst snd].
    unfold traced_ban. destruct (exec req (fst (exec req w))).
    reflexivity. }
  split; [exact Hh1 |]. split; [rewrite Hrun1; reflexivity |].
  rewrite Hrun2. split; reflexivity.
Qed.
